(** * nanslice/util.py: slice compositing utilities

    A shallow embedding of [nanslice/util.py] and a verification of its
    specification.

    Conventions of the embedding

    - Python floats are modelled by exact rationals [Q]; equality of
      computed values is [Qeq] ([==]).  Infinities and NaN are outside the
      model.  IEEE rounding is modelled where a property depends on it:
      module [binary64] computes the voxel coordinates of [sample_point]
      with primitive binary64 numbers.
    - Python exceptions are values of [exn]; a function that may raise
      returns a [result].
    - numpy arrays are row-major: an n-dimensional array is a shape and a
      flat buffer ([ndarray]); the 2-D fields produced by slicing are lists
      of rows ([field]).
    - Code the module imports but does not define ([Slice.sample], the
      colormap registry) enters through the [Externals] class. *)

From Stdlib Require Import Ascii String QArith Qround ZArith List Bool Lia Lqa.
From Stdlib Require Floats.
Import ListNotations.
Open Scope Q_scope.

(** ** Exceptions and the error monad *)

Inductive exn : Type :=
| TypeError (what : string)   (* unexpected keyword argument [what] *)
| ValueError
| IndexError
| AxisError
| LinAlgError
| RuntimeError
| LookupError
| NumericError
| ShapeError
| ArgumentError (what : string)
| NotModelled.

Inductive result (A : Type) : Type :=
| Ok (a : A)
| Raise (e : exn).
Arguments Ok {A} a.
Arguments Raise {A} e.

Definition bind {A B : Type} (m : result A) (k : A -> result B) : result B :=
  match m with
  | Ok a => k a
  | Raise e => Raise e
  end.

Notation "x <- m ;; k" := (bind m (fun x => k))
  (at level 61, m at next level, right associativity).

(** ** numpy *)

Module np.

Definition vector := list Q.
Definition matrix := list (list Q).

Definition Qlt_bool (x y : Q) : bool := negb (Qle_bool y x).

Definition range (n : nat) : list nat := seq 0 n.

(** [np.sum] of a 1-D sequence. *)
Definition sum (l : list Q) : Q := fold_right Qplus 0 l.

(** Inner product of two 1-D arrays; numpy raises [ValueError] when the
    lengths differ. *)
Fixpoint vdot (u v : vector) : result Q :=
  match u, v with
  | [], [] => Ok 0
  | a :: u', b :: v' => r <- vdot u' v' ;; Ok (a * b + r)
  | _, _ => Raise ValueError
  end.

Fixpoint mapM {A B : Type} (f : A -> result B) (l : list A) : result (list B) :=
  match l with
  | [] => Ok []
  | a :: l' => b <- f a ;; r <- mapM f l' ;; Ok (b :: r)
  end.

(** [np.dot(m, v)] for a 2-D [ndarray] [m] and a 1-D [v]: a 1-D array. *)
Definition dot (m : matrix) (v : vector) : result vector :=
  mapM (fun row => vdot row v) m.

(** [np.dot(m, v)] when [m] is an [np.matrix]: the result is again a
    matrix, of shape (1, n). *)
Definition mdot (m : matrix) (v : vector) : result matrix :=
  r <- dot m v ;; Ok [r].

(** Elementwise combination of two sequences of the same length. *)
Fixpoint zip_with {A B C : Type} (e : exn) (f : A -> B -> result C)
         (l1 : list A) (l2 : list B) : result (list C) :=
  match l1, l2 with
  | [], [] => Ok []
  | a :: l1', b :: l2' => c <- f a b ;; r <- zip_with e f l1' l2' ;; Ok (c :: r)
  | _, _ => Raise e
  end.

(** [m.T] *)
Fixpoint transpose (m : matrix) : matrix :=
  match m with
  | [] => []
  | r :: rs =>
      match rs with
      | [] => map (fun x => [x]) r
      | _ => map (fun p => fst p :: snd p) (combine r (transpose rs))
      end
  end.

(** [-m] *)
Definition neg (m : matrix) : matrix := map (map Qopp) m.

(** [a + b] for two matrices of equal shape (the only case that arises
    in this module once [np.dot] has succeeded). *)
Definition add (a b : matrix) : result matrix :=
  zip_with ValueError (zip_with ValueError (fun x y => Ok (x + y))) a b.

Definition det3 (a b c d e f g h i : Q) : Q :=
  a * (e * i - f * h) - b * (d * i - f * g) + c * (d * h - e * g).

(** [np.mat(m).I] for a 3 x 3 matrix: the inverse, [LinAlgError] when the
    matrix is singular. *)
Definition inv (m : matrix) : result matrix :=
  match m with
  | [[a; b; c]; [d; e; f]; [g; h; i]] =>
      let dt := det3 a b c d e f g h i in
      if Qeq_bool dt 0 then Raise LinAlgError
      else Ok [[(e * i - f * h) / dt; (c * h - b * i) / dt; (b * f - c * e) / dt];
               [(f * g - d * i) / dt; (a * i - c * g) / dt; (c * d - a * f) / dt];
               [(d * h - e * g) / dt; (b * g - a * h) / dt; (a * e - b * d) / dt]]
  | _ => Raise NotModelled
  end.

(** An n-dimensional array of numbers in C (row-major) order. *)
Record ndarray : Type := mk_ndarray { shape : list nat; buf : list Q }.

(** [a.squeeze()]: every axis of length one is removed. *)
Definition squeeze (a : ndarray) : ndarray :=
  {| shape := filter (fun n => negb (Nat.eqb n 1)) (shape a); buf := buf a |}.

(** [a[i, j, k]] of a 3-D array with trailing dimensions [n1], [n2]. *)
Definition get3 (a : ndarray) (n1 n2 : nat) (i j k : nat) : Q :=
  nth ((i * n1 + j) * n2 + k) (buf a) 0.

(** [np.sum(a, axis=(1,2))], [np.sum(a, axis=(0,2))], [np.sum(a, axis=(0,1))]
    of a 3-D array of shape (n0, n1, n2). *)
Definition sum_axis12 (a : ndarray) (n0 n1 n2 : nat) : list Q :=
  map (fun i => sum (map (fun j => sum (map (fun k => get3 a n1 n2 i j k) (range n2)))
                         (range n1)))
      (range n0).

Definition sum_axis02 (a : ndarray) (n0 n1 n2 : nat) : list Q :=
  map (fun j => sum (map (fun i => sum (map (fun k => get3 a n1 n2 i j k) (range n2)))
                         (range n0)))
      (range n1).

Definition sum_axis01 (a : ndarray) (n0 n1 n2 : nat) : list Q :=
  map (fun k => sum (map (fun i => sum (map (fun j => get3 a n1 n2 i j k) (range n1)))
                         (range n0)))
      (range n2).

(** [np.argmax]: the first index at which the maximum is attained;
    [ValueError] on an empty sequence. *)
Fixpoint argmax_from (best : Q) (besti : nat) (i : nat) (l : list Q) : nat :=
  match l with
  | [] => besti
  | x :: l' =>
      if Qlt_bool best x then argmax_from x i (S i) l'
      else argmax_from best besti (S i) l'
  end.

Definition argmax (l : list Q) : result nat :=
  match l with
  | [] => Raise ValueError
  | x :: l' => Ok (argmax_from x 0%nat 1%nat l')
  end.

End np.

(** ** scipy.ndimage.interpolation *)

Module ndinterp.

(** A coordinate lies inside an axis of length [n] when it is in
    [0, n-1]; with the default [mode='constant'] a point with a coordinate
    outside takes the value [cval = 0]. *)
Definition in_range (n : nat) (c : Q) : bool :=
  Qle_bool 0 c && Qle_bool c (inject_Z (Z.of_nat n - 1)).

Fixpoint all_in_range (sh : list nat) (cs : list Q) : bool :=
  match sh, cs with
  | n :: sh', c :: cs' => in_range n c && all_in_range sh' cs'
  | _, _ => true
  end.

(** Multilinear interpolation (spline order 1) in a row-major buffer:
    along each axis the value is the weighted mean of the two
    neighbouring grid planes, [off] being the flat index accumulated over
    the axes already fixed. *)
Fixpoint lerp (sh : list nat) (cs : list Q) (off : nat) (b : list Q) : Q :=
  match sh, cs with
  | n :: sh', c :: cs' =>
      let i0 := Z.to_nat (Qfloor c) in
      let i1 := Nat.min (i0 + 1) (n - 1) in
      let t := c - inject_Z (Qfloor c) in
      (1 - t) * lerp sh' cs' (off * n + i0) b + t * lerp sh' cs' (off * n + i1) b
  | _, _ => nth off b 0
  end.

(** [map_coordinates(input, coordinates, order=order)]: [coordinates] has
    one row per axis of [input] and one column per point; one value is
    returned per point.  Only linear interpolation is modelled. *)
Definition map_coordinates (input : np.ndarray) (coordinates : np.matrix)
           (order : Z) : result (list Q) :=
  if negb (Nat.eqb (length coordinates) (length (np.shape input)))
  then Raise RuntimeError
  else if Z.eqb order 1 then
    Ok (map (fun p => if all_in_range (np.shape input) p
                      then lerp (np.shape input) p 0%nat (np.buf input)
                      else 0)
            (np.transpose coordinates))
  else Raise NotModelled.

End ndinterp.

(** ** Volumes *)

(** The 4 x 4 affine of an image, mapping homogeneous voxel indices to
    physical coordinates, row by row. *)
Definition row4 : Type := (Q * Q * Q * Q)%type.
Record affine4 : Type := mk_affine { row0 : row4; row1 : row4; row2 : row4; row3 : row4 }.

Definition row_list (r : row4) : list Q :=
  let '(a, b, c, d) := r in [a; b; c; d].

(** The affine as a 2-D array. *)
Definition rows (A : affine4) : np.matrix :=
  [row_list (row0 A); row_list (row1 A); row_list (row2 A); row_list (row3 A)].

(** [A[0:3, 0:3]] and [A[0:3, 3]] *)
Definition sub33 (A : affine4) : np.matrix :=
  map (firstn 3) (firstn 3 (rows A)).
Definition col3 (A : affine4) : np.vector :=
  map (fun r => nth 3 r 0) (firstn 3 (rows A)).

Record Volume : Type := mk_volume { affine : affine4; get_data : np.ndarray }.
Definition get_affine (img : Volume) : affine4 := affine img.

(** ** util.py *)

(** util.py:14-18 *)
Definition sample_point (img : Volume) (point : np.vector) (order : Z)
  : result (list Q) :=
  scale <- np.inv (sub33 (get_affine img)) ;;
  offset <- (d <- np.mdot (np.neg scale) (col3 (get_affine img)) ;;
             Ok (np.transpose d)) ;;
  s_point <- (d <- np.mdot scale point ;; np.add (np.transpose d) offset) ;;
  ndinterp.map_coordinates (np.squeeze (get_data img)) s_point order.

Definition of_index (i : nat) : Q := inject_Z (Z.of_nat i).

(** util.py:20-25; the [axis] tuples of the three sums need a 3-D array
    ([AxisError] below three dimensions; above, the marginals are no longer
    1-D, which is not modelled). *)
Definition center_of_mass (img : Volume) : result np.vector :=
  match np.shape (get_data img) with
  | [n0; n1; n2] =>
      idx0 <- np.argmax (np.sum_axis12 (get_data img) n0 n1 n2) ;;
      idx1 <- np.argmax (np.sum_axis02 (get_data img) n0 n1 n2) ;;
      idx2 <- np.argmax (np.sum_axis01 (get_data img) n0 n1 n2) ;;
      phys <- np.dot (rows (affine img)) [of_index idx0; of_index idx1; of_index idx2; 1] ;;
      Ok phys
  | [] | [_] | [_; _] => Raise AxisError
  | _ => Raise NotModelled
  end.

(** The physical-space coordinate of voxel (i, j, k): the affine applied to
    the homogeneous index, without the homogeneous component. *)
Definition voxel_to_phys (A : affine4) (i j k : nat) : np.vector :=
  let '(a00, a01, a02, a03) := row0 A in
  let '(a10, a11, a12, a13) := row1 A in
  let '(a20, a21, a22, a23) := row2 A in
  [a00 * of_index i + a01 * of_index j + a02 * of_index k + a03;
   a10 * of_index i + a11 * of_index j + a12 * of_index k + a13;
   a20 * of_index i + a21 * of_index j + a22 * of_index k + a23].

(** ** 2-D fields *)

Definition field (A : Type) : Type := list (list A).
Definition rgb : Type := (Q * Q * Q)%type.

(** A 2-D numpy array of dtype [bool] or of a numeric dtype: the two kinds
    of value the local [sl_color_mask] of [overlay_slice] can hold. *)
Inductive array2 : Type :=
| BoolArr (m : field bool)
| FloatArr (m : field Q).

Module arr.

(** [f * k], [f > t], [f < t], [np.ones_like(f)], [b.any()] *)
Definition times (f : field Q) (k : Q) : field Q := map (map (fun x => x * k)) f.
Definition greater (f : field Q) (t : Q) : field bool := map (map (fun x => np.Qlt_bool t x)) f.
Definition less (f : field Q) (t : Q) : field bool := map (map (fun x => np.Qlt_bool x t)) f.
Definition ones_like (f : field Q) : field Q := map (map (fun _ => 1)) f.
Definition any (b : field bool) : bool := existsb (existsb (fun x => x)) b.

(** Elementwise combination of two fields of the same shape. *)
Definition zip_field {A B C : Type} (f : A -> B -> C) (x : field A) (y : field B)
  : result (field C) :=
  np.zip_with ShapeError (np.zip_with ShapeError (fun a b => Ok (f a b))) x y.

(** Truth value and numeric value of the elements of an array. *)
Definition truth (a : array2) : field bool :=
  match a with
  | BoolArr m => m
  | FloatArr m => map (map (fun q => negb (Qeq_bool q 0))) m
  end.

Definition number (a : array2) : field Q :=
  match a with
  | BoolArr m => map (map (fun b : bool => if b then 1 else 0)) m
  | FloatArr m => m
  end.

Definition shape2 {A : Type} (f : field A) : list nat := map (@List.length A) f.

Definition pixel {A : Type} (f : field A) (r c : nat) : option A :=
  match nth_error f r with
  | Some row => nth_error row c
  | None => None
  end.

End arr.

(** ** Collaborators outside util.py *)

(** [Slice] is the class of nanslice/slice.py: [sample sl img order] is
    [sl.sample(img, order)], the 2-D scalar field of [img] over the slice,
    and [extent sl] is [sl.extent].  [get_cmap] is the colormap registry: a
    name resolves to a lookup function on [0,1] or is unknown. *)
Class Externals : Type := {
  Slice : Type;
  sample : Slice -> Volume -> Z -> result (field Q);
  extent : Slice -> list Q;
  get_cmap : string -> option (Q -> rgb)
}.

(** ** nanslice/image.py *)

Module image.

Definition clip01 (x : Q) : Q :=
  if Qle_bool x 0 then 0 else if Qle_bool 1 x then 1 else x.

Definition normalize (lims : Q * Q) (x : Q) : Q :=
  clip01 ((x - fst lims) / (snd lims - fst lims)).

(** Modelled from the spec: [image.scale_clip] of nanslice/image.py, which
    is not part of the sources at hand.  Spec 4.2: linearly rescales
    [limits[0] -> 0], [limits[1] -> 1] and clips to [0,1]; spec 7: a
    reversed or empty limit pair fails fast with a NumericError. *)
Definition scale_clip (f : field Q) (lims : Q * Q) : result (field Q) :=
  if np.Qlt_bool (fst lims) (snd lims)
  then Ok (map (map (normalize lims)) f)
  else Raise NumericError.

(** Modelled from the spec: [image.colorize] of nanslice/image.py.  Spec
    4.2: rescale by the limits, clip to [0,1], look each value up in the
    named colormap; the result has the shape of the input.  Spec 7: an
    unknown colormap name fails with a LookupError. *)
Definition colorize `{ext : Externals} (f : field Q) (cm_name : string) (clims : Q * Q)
  : result (field rgb) :=
  match get_cmap cm_name with
  | None => Raise LookupError
  | Some palette =>
      if np.Qlt_bool (fst clims) (snd clims)
      then Ok (map (map (fun x => palette (normalize clims x))) f)
      else Raise NumericError
  end.

Definition background : rgb := (0, 0, 0).

(** Modelled from the spec: [image.mask] of nanslice/image.py.  Spec 4.2:
    where the mask is falsy the pixel is replaced by the background; where
    it is truthy the pixel is kept.  Spec 7: fields of different shapes
    are a ShapeError. *)
Definition mask (img : field rgb) (img_mask : array2) : result (field rgb) :=
  arr.zip_field (fun (px : rgb) (b : bool) => if b then px else background)
                img (arr.truth img_mask).

Definition rgb_scale (p : rgb) (k : Q) : rgb :=
  let '(r, g, b) := p in (r * k, g * k, b * k).
Definition rgb_add (p q : rgb) : rgb :=
  let '(r, g, b) := p in let '(r', g', b') := q in (r + r', g + g', b + b').

(** Modelled from the spec: [image.blend] of nanslice/image.py.  Spec 4.2:
    per pixel [base*(1-alpha) + overlay*alpha], alpha broadcast over the
    colour channels. *)
Definition blend (img_under img_over : field rgb) (img_alpha : array2)
  : result (field rgb) :=
  under <- arr.zip_field (fun p a => rgb_scale p (1 - a)) img_under (arr.number img_alpha) ;;
  over <- arr.zip_field rgb_scale img_over (arr.number img_alpha) ;;
  arr.zip_field rgb_add under over.

End image.

(** ** util.py, continued *)

(** util.py:27-28 *)
Record Options : Type := mk_Options {
  interp_order : Z;
  color_map : string;
  color_lims : Q * Q;
  color_scale : Q;
  color_mask_thresh : option Q;     (* [None] or a float *)
  alpha_lims : Q * Q
}.

(** Truth value of [options.color_mask_thresh] in an [if]: [None] and zero
    are false, any other number is true.  [if_true] returns the number when
    the test succeeds. *)
Definition if_true (thresh : option Q) : option Q :=
  match thresh with
  | Some t => if Qeq_bool t 0 then None else Some t
  | None => None
  end.

Section Compositor.
Context `{ext : Externals}.

(** util.py:39-46, the value of the local [sl_color_mask]. *)
Definition sl_color_mask (sl : Slice) (options : Options)
           (img_color_mask : option Volume) (sl_color : field Q) : result array2 :=
  match img_color_mask with
  | Some cm =>
      m <- sample sl cm (interp_order options) ;;
      match if_true (color_mask_thresh options) with
      | Some t => Ok (BoolArr (arr.greater m t))
      | None => Ok (FloatArr m)
      end
  | None =>
      match if_true (color_mask_thresh options) with
      | Some t => Ok (BoolArr (arr.greater sl_color t))
      | None => Ok (FloatArr (arr.ones_like sl_color))
      end
  end.

(** util.py:50-51, the value of the local [sl_scaled_alpha]. *)
Definition sl_scaled_alpha (sl : Slice) (options : Options) (img_alpha : Volume)
  : result (field Q) :=
  sl_alpha <- sample sl img_alpha (interp_order options) ;;
  image.scale_clip sl_alpha (alpha_lims options).

(** util.py:35-56, the value of the local [sl_blend]. *)
Definition sl_blend (sl : Slice) (options : Options) (window : Q * Q)
           (img_base : Volume) (img_color img_color_mask img_alpha : option Volume)
  : result (field rgb) :=
  b <- sample sl img_base (interp_order options) ;;
  sl_base <- image.colorize b "gray" window ;;
  match img_color with
  | Some ic =>
      c <- sample sl ic (interp_order options) ;;
      let sl_color := arr.times c (color_scale options) in
      cmask <- sl_color_mask sl options img_color_mask sl_color ;;
      colored <- image.colorize sl_color (color_map options) (color_lims options) ;;
      masked <- image.mask colored cmask ;;
      match img_alpha with
      | Some ia =>
          alpha <- sl_scaled_alpha sl options ia ;;
          image.blend sl_base masked (FloatArr alpha)
      | None => image.blend sl_base masked cmask
      end
  | None => Ok sl_base
  end.

(** util.py:30-62 *)
Definition overlay_slice (sl : Slice) (options : Options) (window : Q * Q)
           (img_base : Volume) (img_mask img_color img_color_mask img_alpha : option Volume)
  : result (field rgb) :=
  blended <- sl_blend sl options window img_base img_color img_color_mask img_alpha ;;
  match img_mask with
  | Some im =>
      m <- sample sl im (interp_order options) ;;
      image.mask blended (FloatArr m)
  | None => Ok blended
  end.

(** *** Drawing *)

(** What a matplotlib axes has been asked to draw, oldest call first. *)
Inductive draw_call : Type :=
| Imshow (img : field rgb) (ext : list Q)
| AxisOff
| Contour (f : field Q) (levels : list Q) (ext : list Q) (colors : string).

Definition Axes : Type := list draw_call.

(** A computation that draws on an axes and may raise: the calls made
    before an exception stay on the axes. *)
Definition drawing (A : Type) : Type := Axes -> result A * Axes.

Definition dret {A : Type} (a : A) : drawing A := fun ax => (Ok a, ax).
Definition dbind {A B : Type} (m : drawing A) (k : A -> drawing B) : drawing B :=
  fun ax => match m ax with
            | (Ok a, ax') => k a ax'
            | (Raise e, ax') => (Raise e, ax')
            end.
Definition lift {A : Type} (r : result A) : drawing A := fun ax => (r, ax).
Definition call (c : draw_call) : drawing unit := fun ax => (Ok tt, ax ++ [c]).

(** [t[0]] *)
Definition first_item (t : list Q) : result Q :=
  match t with
  | x :: _ => Ok x
  | [] => Raise IndexError
  end.

(** util.py:64-75 *)
Definition draw_slice (sl : Slice) (opts : Options) (window : Q * Q)
           (img : Volume) (mask color_img color_mask alpha_img contour_img : option Volume)
           (contour_levels : list Q) (contour_colors : string) : drawing unit :=
  dbind (lift (overlay_slice sl opts window img mask color_img color_mask alpha_img))
    (fun sliced =>
  dbind (call (Imshow sliced (extent sl))) (fun _ =>
  dbind (call AxisOff) (fun _ =>
  match contour_img with
  | Some ci =>
      dbind (lift (sample sl ci 1)) (fun sliced_contour =>
      dbind (lift (first_item contour_levels)) (fun level =>
      if arr.any (arr.less sliced_contour level)
         && arr.any (arr.greater sliced_contour level)
      then call (Contour sliced_contour contour_levels (extent sl) contour_colors)
      else dret tt))
  | None => dret tt
  end))).

End Compositor.

(** Default arguments of [draw_slice]. *)
Definition default_contour_levels : list Q := [95 # 100].
Definition default_contour_colors : string := "w".

(** ** argparse *)

Module argparse.

(** Values passed as keyword arguments in util.py. *)
Inductive value : Type :=
| Int (z : Z)
| Float (q : Q)
| Str (s : string)
| Ty (name : string)            (* the builtins [str], [float], [int] *)
| Pair (a b : value).

Definition kwargs : Type := list (string * value).

Record Action : Type := mk_Action { flag : string; settings : kwargs }.

Record ArgumentParser : Type :=
  mk_parser { description : string; actions : list Action }.

(** Keyword parameters accepted by the constructors of the [store] and
    [append] action classes, besides [option_strings] and [dest] which
    [add_argument] supplies itself. *)
Definition action_params : list string :=
  ["dest"; "nargs"; "const"; "default"; "type"; "choices"; "required"; "help";
   "metavar"]%string.

Definition known (names : list string) (k : string) : bool :=
  existsb (String.eqb k) names.

(** An option string starts with the prefix character [-]; any other name
    is a positional argument. *)
Definition is_optional (name : string) : bool :=
  match name with
  | String "-"%char _ => true
  | _ => false
  end.

(** [parser.add_argument(name, **kw)].  A positional argument may not be
    given a [dest].  The action class is looked up from [action] (default
    [store]); the remaining keywords are passed to its constructor, which
    raises [TypeError] on one it does not know.  Registering an option
    string twice is an [ArgumentError].  Only the [store] and [append]
    actions are modelled. *)
Definition add_argument (parser : ArgumentParser) (name : string) (kw : kwargs)
  : result ArgumentParser :=
  let supported :=
    forallb (fun p => match p with
                      | (k, Str a) =>
                          negb (String.eqb k "action") || known ["store"; "append"]%string a
                      | (k, _) => negb (String.eqb k "action")
                      end) kw in
  if negb (is_optional name) && known (map fst kw) "dest" then Raise ValueError
  else if negb supported then Raise NotModelled
  else
    let rest := filter (fun p => negb (String.eqb (fst p) "action")) kw in
    match find (fun p => negb (known action_params (fst p))) rest with
    | Some (k, _) => Raise (TypeError k)
    | None =>
        if is_optional name && known (map flag (actions parser)) name
        then Raise (ArgumentError name)
        else Ok (mk_parser (description parser)
                           (actions parser ++ [mk_Action name kw]))
    end.

End argparse.

Section CommonOptions.
Import argparse.
Local Open Scope string_scope.

(** util.py:191-239 *)
Definition common_options : result ArgumentParser :=
  let parser := mk_parser "Dual-coding viewer." [] in
  parser <- add_argument parser "base_image"
              [("help", Str "Base (structural image)"); ("type", Ty "str")] ;;
  parser <- add_argument parser "--mask"
              [("type", Ty "str"); ("help", Str "Mask image")] ;;
  parser <- add_argument parser "--color"
              [("type", Ty "str"); ("help", Str "Add color overlay")] ;;
  parser <- add_argument parser "--color_lims"
              [("type", Ty "float"); ("noptions", Int 2);
               ("default", Pair (Int (-1)) (Int 1));
               ("help", Str "Colormap window, default=-1 1")] ;;
  parser <- add_argument parser "--color_mask"
              [("type", Ty "str"); ("help", Str "Mask color image")] ;;
  parser <- add_argument parser "--color_mask_thresh"
              [("type", Ty "float"); ("help", Str "Color mask threshold")] ;;
  parser <- add_argument parser "--color_scale"
              [("type", Ty "float"); ("default", Int 1);
               ("help", Str "Multiply color image by value, default=1")] ;;
  parser <- add_argument parser "--color_map"
              [("type", Ty "str"); ("default", Str "RdYlBu_r");
               ("help", Str "Colormap to use from Matplotlib, default = RdYlBu_r")] ;;
  parser <- add_argument parser "--color_label"
              [("type", Ty "str"); ("default", Str "% Change");
               ("help", Str "Label for color axis")] ;;
  parser <- add_argument parser "--alpha"
              [("type", Ty "str");
               ("help", Str "Image for transparency-coding of overlay")] ;;
  parser <- add_argument parser "--alpha_lims"
              [("type", Ty "float"); ("noptions", Int 2);
               ("default", Pair (Float (1 # 2)) (Float 1));
               ("help", Str "Alpha/transparency window, default=0.5 1.0")] ;;
  parser <- add_argument parser "--alpha_label"
              [("type", Ty "str"); ("default", Str "1-p");
               ("help", Str "Label for alpha/transparency axis")] ;;
  parser <- add_argument parser "--contour_img"
              [("type", Ty "str");
               ("help", Str "Image to define contour (if none, use alpha image)")] ;;
  parser <- add_argument parser "--contour"
              [("type", Ty "float"); ("action", Str "append");
               ("help", Str "Add an alpha image contour (can be multiple)")] ;;
  parser <- add_argument parser "--contour_color"
              [("type", Ty "str"); ("action", Str "append");
               ("help", Str "Choose contour colour")] ;;
  parser <- add_argument parser "--contour_style"
              [("type", Ty "str"); ("action", Str "append");
               ("help", Str "Choose contour line-style")] ;;
  parser <- add_argument parser "--window"
              [("type", Ty "float"); ("noptions", Int 2);
               ("default", Pair (Int 1) (Int 99));
               ("help", Str "Specify base image window (in percentiles)")] ;;
  parser <- add_argument parser "--samples"
              [("type", Ty "int"); ("default", Int 128);
               ("help", Str "Number of samples for slicing, default=128")] ;;
  parser <- add_argument parser "--interp"
              [("type", Ty "str"); ("default", Str "hanning");
               ("help", Str "Display interpolation mode, default=hanning")] ;;
  parser <- add_argument parser "--interp_order"
              [("type", Ty "int"); ("default", Int 1);
               ("help", Str "Data interpolation order, default=1")] ;;
  parser <- add_argument parser "--orient"
              [("type", Ty "str"); ("default", Str "clin");
               ("help", Str "Clinical (clin) or Pre-clinical (preclin) orientation")] ;;
  Ok parser.

End CommonOptions.

(** ** Notions used by the specification *)

(** The data of [img] is 3-D of shape (n0, n1, n2), positive at voxel
    (i, j, k) and zero at every other voxel. *)
Definition single_positive_voxel (img : Volume) (n0 n1 n2 i j k : nat) : Prop :=
  np.shape (get_data img) = [n0; n1; n2] /\
  (i < n0)%nat /\ (j < n1)%nat /\ (k < n2)%nat /\
  0 < np.get3 (get_data img) n1 n2 i j k /\
  forall i' j' k', (i' < n0)%nat -> (j' < n1)%nat -> (k' < n2)%nat ->
                   (i' <> i \/ j' <> j \/ k' <> k) ->
                   np.get3 (get_data img) n1 n2 i' j' k' == 0.



(** Determinant of the linear part of an affine. *)
Definition linear_det (A : affine4) : Q :=
  let '(a, b, c, _) := row0 A in
  let '(d, e, f, _) := row1 A in
  let '(g, h, i, _) := row2 A in
  np.det3 a b c d e f g h i.

Definition rgb_eq (p q : rgb) : Prop :=
  let '(r, g, b) := p in let '(r', g', b') := q in r == r' /\ g == g' /\ b == b'.

(** [options._replace(color_mask_thresh=t)] *)
Definition with_thresh (o : Options) (t : option Q) : Options :=
  {| interp_order := interp_order o; color_map := color_map o;
     color_lims := color_lims o; color_scale := color_scale o;
     color_mask_thresh := t; alpha_lims := alpha_lims o |}.

(** The pure elementwise combination of two fields, for fields of one
    shape. *)
Definition zipped {A B C : Type} (f : A -> B -> C) (x : field A) (y : field B) : field C :=
  map (fun rows => map (fun px => f (fst px) (snd px)) (combine (fst rows) (snd rows)))
      (combine x y).

(** The colour-mask policy in the words of the specification (4.3 step 2
    and 9): a tagged variant resolved once per call, where a threshold is
    "given" when the option is present. *)
Inductive ColorMaskPolicy : Type :=
| ExplicitMask (cm : Volume) (thresh : option Q)
| ThresholdOnColor (thresh : Q)
| AlwaysVisible.

Definition resolve_policy (img_color_mask : option Volume) (thresh : option Q)
  : ColorMaskPolicy :=
  match img_color_mask, thresh with
  | Some cm, t => ExplicitMask cm t
  | None, Some t => ThresholdOnColor t
  | None, None => AlwaysVisible
  end.

Definition apply_policy `{ext : Externals} (sl : Slice) (order : Z) (p : ColorMaskPolicy)
           (color : field Q) : result array2 :=
  match p with
  | ExplicitMask cm (Some t) => m <- sample sl cm order ;; Ok (BoolArr (arr.greater m t))
  | ExplicitMask cm None => m <- sample sl cm order ;; Ok (FloatArr m)
  | ThresholdOnColor t => Ok (BoolArr (arr.greater color t))
  | AlwaysVisible => Ok (FloatArr (arr.ones_like color))
  end.

Definition spec_color_mask `{ext : Externals} (sl : Slice) (options : Options)
           (img_color_mask : option Volume) (sl_color : field Q) : result array2 :=
  apply_policy sl (interp_order options)
               (resolve_policy img_color_mask (color_mask_thresh options)) sl_color.

(** A contour field straddles a level when some sample lies strictly below
    it and some sample strictly above. *)
Definition straddles (f : field Q) (level : Q) : Prop :=
  (exists r c x, arr.pixel f r c = Some x /\ x < level) /\
  (exists r c x, arr.pixel f r c = Some x /\ level < x).

(** ** Example inputs *)

Module Example.

Definition identity : affine4 :=
  mk_affine (1, 0, 0, 0) (0, 1, 0, 0) (0, 0, 1, 0) (0, 0, 0, 1).

(** A 2 x 2 x 2 volume whose only nonzero voxel is (1, 0, 1). *)
Definition peak : Volume :=
  {| affine := mk_affine (2, 0, 0, 10) (0, 3, 0, 20) (0, 0, 4, 30) (0, 0, 0, 1);
     get_data := np.mk_ndarray [2; 2; 2]%nat [0; 0; 0; 0; 0; 7; 0; 0] |}.

(** A single-slice volume: shape (2, 2, 1). *)
Definition single_slice : Volume :=
  {| affine := identity;
     get_data := np.mk_ndarray [2; 2; 1]%nat [1; 2; 3; 4] |}.

(** 1 x 2 x 2 volumes holding one 2 x 2 plane each. *)
Definition plane_volume (a b c d : Q) : Volume :=
  {| affine := identity; get_data := np.mk_ndarray [1; 2; 2]%nat [a; b; c; d] |}.

Definition base : Volume := plane_volume (1 # 4) (1 # 2) (3 # 4) 1.
Definition color : Volume := plane_volume 1 (-1) (1 # 2) 0.
Definition alpha : Volume := plane_volume 1 (3 # 4) (1 # 2) 0.
Definition cmask : Volume := plane_volume 1 0 (1 # 2) 1.

(** An axis-aligned slice through voxel centres: slice [i] of a 3-D
    volume is the plane [data[i, :, :]], whatever the interpolation
    order. *)
Definition plane (i : nat) (img : Volume) (order : Z) : result (field Q) :=
  match np.shape (get_data img) with
  | [n0; n1; n2] =>
      if Nat.ltb i n0
      then Ok (map (fun j => map (fun k => np.get3 (get_data img) n1 n2 i j k)
                                 (np.range n2))
                   (np.range n1))
      else Raise IndexError
  | _ => Raise RuntimeError
  end.

#[global] Instance planes : Externals :=
  {| Slice := nat;
     sample := plane;
     extent := fun _ => [0; 2; 0; 2];
     get_cmap := fun name => if String.eqb name "gray"
                             then Some (fun v => (v, v, v)) else None |}.

Definition opts (thresh : option Q) : Options :=
  {| interp_order := 1; color_map := "gray"; color_lims := (-1, 1);
     color_scale := 1; color_mask_thresh := thresh; alpha_lims := (1 # 2, 1) |}.

End Example.

(** ** Further notions and inputs *)


(** The translation column of an affine: the physical position of voxel
    (0, 0, 0). *)
Definition translation (A : affine4) : np.vector :=
  let '(_, _, _, a03) := row0 A in
  let '(_, _, _, a13) := row1 A in
  let '(_, _, _, a23) := row2 A in
  [a03; a13; a23].

(** The data of [img] is 3-D of shape (n0, n1, n2) and zero everywhere. *)
Definition all_zero_voxels (img : Volume) (n0 n1 n2 : nat) : Prop :=
  np.shape (get_data img) = [n0; n1; n2] /\
  forall i j k, (i < n0)%nat -> (j < n1)%nat -> (k < n2)%nat ->
                np.get3 (get_data img) n1 n2 i j k == 0.

(** The data of [img] is 3-D of shape (n0, n1, n2), negative at voxel
    (i, j, k) and zero at every other voxel. *)
Definition single_negative_voxel (img : Volume) (n0 n1 n2 i j k : nat) : Prop :=
  np.shape (get_data img) = [n0; n1; n2] /\
  (i < n0)%nat /\ (j < n1)%nat /\ (k < n2)%nat /\
  np.get3 (get_data img) n1 n2 i j k < 0 /\
  forall i' j' k', (i' < n0)%nat -> (j' < n1)%nat -> (k' < n2)%nat ->
                   (i' <> i \/ j' <> j \/ k' <> k) ->
                   np.get3 (get_data img) n1 n2 i' j' k' == 0.

(** The index [np.argmax] returns on a sequence that is zero except for a
    negative entry at [i]: the first index other than [i]. *)
Definition first_other (i : nat) : nat :=
  match i with
  | O => 1%nat
  | S _ => 0%nat
  end.


Module Cases.

(** An affine whose linear part is singular (its third column is zero). *)
Definition collapsed : Volume :=
  {| affine := mk_affine (1, 0, 0, 0) (0, 1, 0, 0) (0, 0, 0, 0) (0, 0, 0, 1);
     get_data := np.mk_ndarray [2; 2; 2]%nat [1; 2; 3; 4; 5; 6; 7; 8] |}.

(** A 2 x 2 x 2 volume with distinct voxel values. *)
Definition cube : Volume :=
  {| affine := mk_affine (2, 0, 0, 10) (0, 3, 0, 20) (0, 0, 4, 30) (0, 0, 0, 1);
     get_data := np.mk_ndarray [2; 2; 2]%nat [1; 2; 3; 4; 5; 6; 7; 8] |}.

(** A volume with no voxels along its second axis. *)
Definition empty : Volume :=
  {| affine := Example.identity; get_data := np.mk_ndarray [2; 0; 2]%nat [] |}.

(** An all-zero volume. *)
Definition blank : Volume :=
  {| affine := mk_affine (2, 0, 0, 10) (0, 3, 0, 20) (0, 0, 4, 30) (0, 0, 0, 1);
     get_data := np.mk_ndarray [2; 2; 2]%nat [0; 0; 0; 0; 0; 0; 0; 0] |}.

(** A 2 x 2 x 2 volume whose only nonzero voxel, (0, 1, 0), is negative. *)
Definition pit : Volume :=
  {| affine := Example.identity;
     get_data := np.mk_ndarray [2; 2; 2]%nat [0; 0; -3; 0; 0; 0; 0; 0] |}.

(** A sampler that fails on every volume. *)
Definition broken : Externals :=
  {| Slice := unit;
     sample := fun _ _ _ => Raise RuntimeError;
     extent := fun _ => [];
     get_cmap := fun _ => None |}.

End Cases.

(** ** Legend widgets (util.py:83-189) *)

(** Python text building used for tick labels: [format_num fmt x] is
    [fmt.format(x)], which may raise, and [str_of_int n] is [str(n)]. *)
Class PyText : Type := {
  format_num : string -> Q -> result string;
  str_of_int : Z -> string
}.

(** [np.linspace(start, stop, num)]: [num] evenly spaced samples, the last
    one being [stop] itself. *)
Definition linspace (start stop : Q) (num : nat) : list Q :=
  match num with
  | O => []
  | S O => [start]
  | S m => map (fun i => of_index i * ((stop - start) / of_index m) + start) (np.range m)
           ++ [stop]
  end.

(** [np.tile(v[np.newaxis, :], [n, 1])]: [n] rows, each equal to [v]; and
    [np.tile(v[:, np.newaxis], [1, n])]: one row per element of [v], that
    element repeated [n] times. *)
Definition tile_rows (v : list Q) (n : nat) : field Q := repeat v n.
Definition tile_cols (v : list Q) (n : nat) : field Q := map (fun x => repeat x n) v.

(** [np.ones((n, n, 3))] *)
Definition ones_rgb (n : nat) : field rgb := repeat (repeat (1, 1, 1) n) n.

Inductive axis_id : Type := XAxis | YAxis.

(** The calls the legend widgets make on a matplotlib axes.  [Show img ext]
    is [axes.imshow(img, origin='lower', interpolation='hanning',
    extent=ext, aspect='auto')]; [SetTicks] and [SetTickLabels] are
    [set_xticks]/[set_yticks] and [set_xticklabels]/[set_yticklabels] with
    their keyword arguments; [SpineColor side c] is
    [axes.spines[side].set_color(c)]; [LabelColor a c] is
    [axes.xaxis.label.set_color(c)] or its y counterpart; [HLine] is
    [axes.axhline(y=.., linewidth=.., linestyle=.., color=..)]. *)
Inductive legend_call : Type :=
| Show (img : field rgb) (ext : Q * Q * Q * Q)
| SetTicks (a : axis_id) (ticks : list Q)
| SetTickLabels (a : axis_id) (labels : list string) (kw : list (string * string))
| TickParams (kw : list (string * argparse.value))
| SpineColor (side : string) (color : string)
| LabelColor (a : axis_id) (color : string)
| AxisOn
| HLine (y : Q) (linewidth : Q) (linestyle : string) (color : string).

(** Exceptions of the widgets: those of [exn], and matplotlib's
    [AttributeError] for a keyword that is no property of the artist. *)
Inductive legend_error : Type :=
| Builtin (e : exn)
| AttributeError (what : string).

Inductive outcome (A : Type) : Type :=
| Done (a : A)
| Failed (e : legend_error).
Arguments Done {A} a.
Arguments Failed {A} e.

(** A computation that draws a legend: the calls made before an exception
    stay on the axes. *)
Definition legend (A : Type) : Type := list legend_call -> outcome A * list legend_call.

Definition lret {A : Type} (a : A) : legend A := fun ax => (Done a, ax).
Definition lbind {A B : Type} (m : legend A) (k : A -> legend B) : legend B :=
  fun ax => match m ax with
            | (Done a, ax') => k a ax'
            | (Failed e, ax') => (Failed e, ax')
            end.
Definition llift {A : Type} (r : result A) : legend A :=
  fun ax => match r with
            | Ok a => (Done a, ax)
            | Raise e => (Failed (Builtin e), ax)
            end.
Definition emit (c : legend_call) : legend unit := fun ax => (Done tt, ax ++ [c]).
Definition fail {A : Type} (e : legend_error) : legend A := fun ax => (Failed e, ax).

Notation "x <~ m ;; k" := (lbind m (fun x => k))
  (at level 61, m at next level, right associativity).
Notation "m ;;; k" := (lbind m (fun _ => k))
  (at level 61, right associativity).

(** [zip(a, b, c)]: as long as the shortest of the three. *)
Fixpoint zip3 {A B C : Type} (a : list A) (b : list B) (c : list C)
  : list (A * B * C) :=
  match a, b, c with
  | x :: a', y :: b', z :: c' => (x, y, z) :: zip3 a' b' c'
  | _, _, _ => []
  end.

Definition steps : nat := 32.

Definition is_h (orient : string) : bool := String.eqb orient "h".

Section Legends.
Context `{ext : Externals} `{txt : PyText}.
Local Open Scope string_scope.

(** util.py:83-124 *)
Definition colorbar (cm_name : string) (clims : Q * Q) (clabel : string)
           (black_backg show_ticks : bool) (tick_fmt : string) (orient : string)
  : legend unit :=
  let '(ext, cdata) :=
    if is_h orient
    then ((fst clims, snd clims, 0, 1),
          tile_rows (linspace (fst clims) (snd clims) steps) steps)
    else ((0, 1, fst clims, snd clims),
          tile_cols (linspace (fst clims) (snd clims) steps) steps) in
  color <~ llift (image.colorize cdata cm_name clims) ;;
  emit (Show color ext) ;;;
  let forecolor := if black_backg then "w" else "k" in
  (if show_ticks then
     let ticks := [fst clims; (fst clims + snd clims) / 2; snd clims] in
     lo <~ llift (format_num tick_fmt (fst clims)) ;;
     hi <~ llift (format_num tick_fmt (snd clims)) ;;
     let labels := [lo; clabel; hi] in
     if is_h orient then
       emit (SetTicks XAxis ticks) ;;;
       emit (SetTickLabels XAxis labels [("color", forecolor)]) ;;;
       emit (SetTicks YAxis [])
     else
       emit (SetTicks YAxis ticks) ;;;
       emit (SetTickLabels YAxis labels
                           [("color", forecolor); ("rotation", "vertical");
                            ("va", "center")]) ;;;
       emit (SetTicks XAxis [])
   else
     if is_h orient then
       emit (SetTicks XAxis [(fst clims + snd clims) / 2]) ;;;
       emit (SetTickLabels XAxis [clabel] [("color", forecolor)])
     else
       emit (SetTicks YAxis [(fst clims + snd clims) / 2]) ;;;
       emit (SetTickLabels YAxis [clabel] [("color", forecolor)])) ;;;
  emit (TickParams [("axis", argparse.Str "both"); ("which", argparse.Str "both");
                    ("length", argparse.Int 0)]) ;;;
  emit (SpineColor "top" forecolor) ;;;
  emit (SpineColor "bottom" forecolor) ;;;
  emit (SpineColor "left" forecolor) ;;;
  emit (SpineColor "right" forecolor) ;;;
  emit (LabelColor YAxis forecolor) ;;;
  emit (LabelColor XAxis forecolor) ;;;
  emit AxisOn.

(** util.py:164-169, the loop over the lines.  In the vertical layout the
    source calls [axes.axvline(y=ay, ...)]: [axvline] has no parameter [y],
    the keyword reaches the line artist, which has no such property. *)
Fixpoint draw_alines (orient : string) (lines : list (Q * string * string))
  : legend unit :=
  match lines with
  | [] => lret tt
  | (ay, ac, astyle) :: rest =>
      (if is_h orient then emit (HLine ay (3 # 2) astyle ac)
       else fail (AttributeError "y")) ;;;
      draw_alines orient rest
  end.

(** util.py:171-189 *)
Definition frame_colors (black_backg : bool) : legend unit :=
  if black_backg then
    emit (SpineColor "bottom" "w") ;;;
    emit (SpineColor "top" "w") ;;;
    emit (SpineColor "right" "w") ;;;
    emit (SpineColor "left" "w") ;;;
    emit (TickParams [("axis", argparse.Str "x"); ("colors", argparse.Str "w")]) ;;;
    emit (TickParams [("axis", argparse.Str "y"); ("colors", argparse.Str "w")]) ;;;
    emit (LabelColor YAxis "w") ;;;
    emit (LabelColor XAxis "w")
  else
    emit (SpineColor "bottom" "k") ;;;
    emit (SpineColor "top" "k") ;;;
    emit (SpineColor "right" "k") ;;;
    emit (SpineColor "left" "k") ;;;
    emit (TickParams [("axis", argparse.Str "x"); ("colors", argparse.Str "k")]) ;;;
    emit (TickParams [("axis", argparse.Str "y"); ("colors", argparse.Str "k")]) ;;;
    emit (LabelColor YAxis "k") ;;;
    emit (LabelColor XAxis "k") ;;;
    emit AxisOn.

(** util.py:126-189 *)
Definition alphabar (cm_name : string) (clims : Q * Q) (clabel : string)
           (alims : Q * Q) (alabel : string)
           (alines : option (list Q)) (alines_colors alines_styles : list string)
           (cprecision aprecision : Z) (black_backg : bool) (orient : string)
  : legend unit :=
  let '(ext, cdata, alpha) :=
    if is_h orient
    then ((fst alims, snd alims, fst clims, snd clims),
          tile_rows (linspace (fst clims) (snd clims) steps) steps,
          tile_cols (linspace 0 1 steps) steps)
    else ((fst alims, snd alims, fst clims, snd clims),
          tile_cols (linspace (fst clims) (snd clims) steps) steps,
          tile_rows (linspace 0 1 steps) steps) in
  color <~ llift (image.colorize cdata cm_name clims) ;;
  let backg := ones_rgb steps in
  acmap <~ llift (image.blend backg color (FloatArr alpha)) ;;
  emit (Show acmap ext) ;;;
  let cticks := [fst clims; (fst clims + snd clims) / 2; snd clims] in
  let cfmt := ("{:." ++ str_of_int cprecision ++ "f}")%string in
  clo <~ llift (format_num cfmt (fst clims)) ;;
  chi <~ llift (format_num cfmt (snd clims)) ;;
  let clabels := [clo; clabel; chi] in
  let aticks := [fst alims; (fst alims + snd alims) / 2; snd alims] in
  let afmt := ("{:." ++ str_of_int aprecision ++ "f}")%string in
  alo <~ llift (format_num afmt (fst alims)) ;;
  ahi <~ llift (format_num afmt (snd alims)) ;;
  let alabels := [alo; alabel; ahi] in
  (if is_h orient then
     emit (SetTicks XAxis cticks) ;;;
     emit (SetTickLabels XAxis clabels []) ;;;
     emit (SetTicks YAxis aticks) ;;;
     emit (SetTickLabels YAxis alabels [("rotation", "vertical")])
   else
     emit (SetTicks XAxis aticks) ;;;
     emit (SetTickLabels XAxis alabels []) ;;;
     emit (SetTicks YAxis cticks) ;;;
     emit (SetTickLabels YAxis clabels [("rotation", "vertical"); ("va", "center")])) ;;;
  (match alines with
   | Some (a :: l) => draw_alines orient (zip3 (a :: l) alines_colors alines_styles)
   | _ => lret tt
   end) ;;;
  frame_colors black_backg.

End Legends.

(** Default arguments of [alphabar]. *)
Definition default_alines_colors : list string := ["k"%string].
Definition default_alines_styles : list string := ["solid"%string].

(** The calls of a legend that draw a line. *)
Definition is_line (c : legend_call) : bool :=
  match c with
  | HLine _ _ _ _ => true
  | _ => false
  end.

Definition hline (l : Q * string * string) : legend_call :=
  let '(ay, ac, astyle) := l in HLine ay (3 # 2) astyle ac.

(** The lines [alphabar] is asked to draw: none when [alines] is [None]
    or empty, else the zip of the three sequences. *)
Definition requested_lines (alines : option (list Q)) (colors styles : list string)
  : list (Q * string * string) :=
  match alines with
  | Some l => zip3 l colors styles
  | None => []
  end.

Module Widgets.

(** Fixed-point formatting is not needed to exercise the widgets: labels
    are produced by a formatter that prints every number as ["#"]. *)
#[global] Instance plain_text : PyText :=
  {| format_num := fun _ _ => Ok "#"%string;
     str_of_int := fun _ => "0"%string |}.

(** A formatter that rejects every format string. *)
Definition no_text : PyText :=
  {| format_num := fun _ _ => Raise ValueError;
     str_of_int := fun _ => "0"%string |}.

End Widgets.

(** ** sample_point, stage by stage *)

(** util.py:15-17 in exact arithmetic: the voxel coordinates [s_point] of a
    point, a 3 x 1 matrix. *)
Definition voxel_coordinates (img : Volume) (point : np.vector) : result np.matrix :=
  scale <- np.inv (sub33 (get_affine img)) ;;
  offset <- (d <- np.mdot (np.neg scale) (col3 (get_affine img)) ;;
             Ok (np.transpose d)) ;;
  d <- np.mdot scale point ;; np.add (np.transpose d) offset.

(** util.py:14-18 with the arithmetic of lines 15-17 left open: [coords]
    computes [s_point] from the image and the point (numpy does it in
    binary64; [voxel_coordinates] does it in exact arithmetic), and line 18
    interpolates the squeezed data there. *)
Definition sample_point_via (coords : Volume -> np.vector -> result np.matrix)
           (img : Volume) (point : np.vector) (order : Z) : result (list Q) :=
  s_point <- coords img point ;;
  ndinterp.map_coordinates (np.squeeze (get_data img)) s_point order.

(** The linear part of the affine has a row or a column of zeros. *)
Definition zero_row_or_column (A : affine4) : Prop :=
  let '(a, b, c, _) := row0 A in
  let '(d, e, f, _) := row1 A in
  let '(g, h, i, _) := row2 A in
  (a == 0 /\ b == 0 /\ c == 0) \/ (d == 0 /\ e == 0 /\ f == 0) \/
  (g == 0 /\ h == 0 /\ i == 0) \/ (a == 0 /\ d == 0 /\ g == 0) \/
  (b == 0 /\ e == 0 /\ h == 0) \/ (c == 0 /\ f == 0 /\ i == 0).

(** ** Binary64 *)

Module binary64.
Import PrimFloat FloatOps SpecFloat.







End binary64.

Module Spacing.



End Spacing.

(** * Verification *)

(** ** Sums and argmax *)

Lemma Qlt_bool_true (x y : Q) : np.Qlt_bool x y = true <-> x < y.
Proof.
  unfold np.Qlt_bool. rewrite negb_true_iff. split; intro Hxy.
  - apply Qnot_le_lt. intro Hle. apply Qle_bool_iff in Hle. congruence.
  - destruct (Qle_bool y x) eqn:E; [|reflexivity].
    apply Qle_bool_iff in E. exfalso. exact (Qle_not_lt _ _ E Hxy).
Qed.

Lemma Qlt_bool_false (x y : Q) : np.Qlt_bool x y = false <-> y <= x.
Proof.
  unfold np.Qlt_bool. rewrite negb_false_iff. apply Qle_bool_iff.
Qed.

Lemma sum_map_zero (f : nat -> Q) (l : list nat) :
  (forall p, In p l -> f p == 0) -> np.sum (map f l) == 0.
Proof.
  induction l as [|a l IH]; intros Hz; simpl.
  - reflexivity.
  - rewrite (Hz a (or_introl eq_refl)), IH.
    + ring.
    + intros p Hp. apply Hz. now right.
Qed.

Lemma sum_map_single (f : nat -> Q) (n s j : nat) (v : Q) :
  (s <= j < s + n)%nat -> f j == v ->
  (forall p, (s <= p < s + n)%nat -> p <> j -> f p == 0) ->
  np.sum (map f (seq s n)) == v.
Proof.
  revert s. induction n as [|n IH]; intros s Hj Hv Hz; [lia|].
  simpl. destruct (Nat.eq_dec s j) as [->|Hne].
  - rewrite Hv, sum_map_zero; [ring|].
    intros p Hp. apply in_seq in Hp. apply Hz; lia.
  - rewrite (Hz s) by lia. rewrite IH; [ring|lia|assumption|].
    intros p Hp Hpj. apply Hz; lia.
Qed.

(** A double sum over a grid with a single nonzero entry. *)
Lemma sum2_single (g : nat -> nat -> Q) (na nb a b : nat) (v : Q) :
  (a < na)%nat -> (b < nb)%nat -> g a b == v ->
  (forall p q, (p < na)%nat -> (q < nb)%nat -> (p <> a \/ q <> b) -> g p q == 0) ->
  np.sum (map (fun p => np.sum (map (fun q => g p q) (np.range nb))) (np.range na)) == v.
Proof.
  intros Ha Hb Hv Hz. unfold np.range.
  apply sum_map_single with (j := a); [lia| |].
  - apply sum_map_single with (j := b); [lia|assumption|].
    intros q Hq Hqb. apply Hz; [lia|lia|now right].
  - intros p Hp Hpa. apply sum_map_zero. intros q Hq. apply in_seq in Hq.
    apply Hz; [lia|lia|now left].
Qed.

Lemma sum2_zero (g : nat -> nat -> Q) (na nb : nat) :
  (forall p q, (p < na)%nat -> (q < nb)%nat -> g p q == 0) ->
  np.sum (map (fun p => np.sum (map (fun q => g p q) (np.range nb))) (np.range na)) == 0.
Proof.
  intros Hz. unfold np.range. apply sum_map_zero. intros p Hp. apply in_seq in Hp.
  apply sum_map_zero. intros q Hq. apply in_seq in Hq. apply Hz; lia.
Qed.

Lemma argmax_from_flat (l : list Q) (best : Q) (bi i : nat) :
  Forall (fun x => x <= best) l -> np.argmax_from best bi i l = bi.
Proof.
  revert i. induction l as [|x l IH]; intros i Hl; simpl; [reflexivity|].
  inversion Hl as [|? ? Hx Hl']; subst.
  apply Qlt_bool_false in Hx. rewrite Hx. now apply IH.
Qed.

Lemma argmax_from_peak (l1 l2 : list Q) (v best : Q) (bi i : nat) :
  Forall (fun x => x <= best) l1 -> best < v -> Forall (fun x => x <= v) l2 ->
  np.argmax_from best bi i (l1 ++ v :: l2) = (i + List.length l1)%nat.
Proof.
  revert i. induction l1 as [|x l1 IH]; intros i H1 Hv H2; simpl.
  - apply Qlt_bool_true in Hv. rewrite Hv.
    rewrite argmax_from_flat by assumption. lia.
  - inversion H1 as [|? ? Hx H1']; subst.
    apply Qlt_bool_false in Hx. rewrite Hx.
    rewrite IH by assumption. lia.
Qed.

(** [argmax] of a sequence that is positive at one index and zero at the
    others is that index. *)
Lemma argmax_single (F : nat -> Q) (n i : nat) :
  (i < n)%nat -> 0 < F i ->
  (forall p, (p < n)%nat -> p <> i -> F p == 0) ->
  np.argmax (map F (np.range n)) = Ok i.
Proof.
  intros Hi Hpos Hz. unfold np.range.
  assert (Hflat : forall s m, (i < s)%nat -> (s + m <= n)%nat ->
                              Forall (fun x => x <= F i) (map F (seq s m))).
  { intros s m Hs Hm. apply Forall_forall. intros x Hx.
    apply in_map_iff in Hx as (p & <- & Hp). apply in_seq in Hp.
    rewrite (Hz p) by lia. now apply Qlt_le_weak. }
  destruct n as [|n]; [lia|]. simpl. f_equal.
  destruct i as [|i].
  - apply argmax_from_flat. apply Hflat; lia.
  - replace n with (i + S (n - S i))%nat by lia.
    rewrite seq_app, map_app. simpl.
    rewrite argmax_from_peak.
    + rewrite length_map, length_seq. reflexivity.
    + apply Forall_forall. intros x Hx.
      apply in_map_iff in Hx as (p & <- & Hp). apply in_seq in Hp.
      rewrite (Hz p), (Hz 0%nat) by lia. apply Qle_refl.
    + rewrite (Hz 0%nat) by lia. assumption.
    + apply Hflat; lia.
Qed.


(** ** center_of_mass *)


Lemma marginals_single_voxel (img : Volume) (n0 n1 n2 i j k : nat) :
  single_positive_voxel img n0 n1 n2 i j k ->
  np.argmax (np.sum_axis12 (get_data img) n0 n1 n2) = Ok i /\
  np.argmax (np.sum_axis02 (get_data img) n0 n1 n2) = Ok j /\
  np.argmax (np.sum_axis01 (get_data img) n0 n1 n2) = Ok k.
Proof.
  intros (_ & Hi & Hj & Hk & Hpos & Hz).
  set (d := get_data img) in *.
  repeat split.
  - unfold np.sum_axis12. apply argmax_single; [assumption| |].
    + rewrite (sum2_single (fun q r => np.get3 d n1 n2 i q r) n1 n2 j k
                 (np.get3 d n1 n2 i j k)); try assumption; try reflexivity.
      intros q r Hq Hr Hne. apply Hz; tauto.
    + intros p Hp Hne.
      apply (sum2_zero (fun q r => np.get3 d n1 n2 p q r)).
      intros q r Hq Hr. apply Hz; tauto.
  - unfold np.sum_axis02. apply argmax_single; [assumption| |].
    + rewrite (sum2_single (fun p r => np.get3 d n1 n2 p j r) n0 n2 i k
                 (np.get3 d n1 n2 i j k)); try assumption; try reflexivity.
      intros p r Hp Hr Hne. apply Hz; tauto.
    + intros q Hq Hne.
      apply (sum2_zero (fun p r => np.get3 d n1 n2 p q r)).
      intros p r Hp Hr. apply Hz; tauto.
  - unfold np.sum_axis01. apply argmax_single; [assumption| |].
    + rewrite (sum2_single (fun p q => np.get3 d n1 n2 p q k) n0 n1 i j
                 (np.get3 d n1 n2 i j k)); try assumption; try reflexivity.
      intros p q Hp Hq Hne. apply Hz; tauto.
    + intros r Hr Hne.
      apply (sum2_zero (fun p q => np.get3 d n1 n2 p q r)).
      intros p q Hp Hq. apply Hz; tauto.
Qed.

(** C6 (as amended).  For a 3-D volume with exactly one nonzero, positive
    voxel (i, j, k), [center_of_mass] returns the four-component homogeneous
    vector [affine . (i, j, k, 1)]: its first three components are the
    physical-space coordinate of the voxel, the fourth is the homogeneous
    component given by the last row of the affine.  The vector is not
    collapsed to three components. *)
Theorem center_of_mass_single_voxel (img : Volume) (n0 n1 n2 i j k : nat) :
  single_positive_voxel img n0 n1 n2 i j k ->
  exists x y z w,
    center_of_mass img = Ok [x; y; z; w] /\
    Forall2 Qeq [x; y; z] (voxel_to_phys (affine img) i j k) /\
    (let '(a, b, c, d) := row3 (affine img) in
     w == a * of_index i + b * of_index j + c * of_index k + d).
Proof.
  intros Hs. destruct (marginals_single_voxel _ _ _ _ _ _ _ Hs) as (E0 & E1 & E2).
  destruct Hs as (Hshape & _).
  unfold center_of_mass. rewrite Hshape, E0, E1, E2.
  destruct img as [[[[[a00 a01] a02] a03] [[[a10 a11] a12] a13]
                    [[[a20 a21] a22] a23] [[[a30 a31] a32] a33]] d].
  cbn [bind np.dot np.mapM np.vdot rows row_list affine row0 row1 row2 row3
       voxel_to_phys].
  do 4 eexists. split; [reflexivity|]. split.
  - repeat constructor; ring.
  - ring.
Qed.

(** ** sample_point *)






(** [sample_point] is [sample_point_via] with the coordinates computed in
    exact arithmetic. *)
Lemma sample_point_via_exact (img : Volume) (point : np.vector) (order : Z) :
  sample_point_via voxel_coordinates img point order = sample_point img point order.
Proof.
  unfold sample_point_via, voxel_coordinates, sample_point.
  destruct (np.inv (sub33 (get_affine img))) as [scale|e]; cbn [bind]; [|reflexivity].
  destruct (np.mdot (np.neg scale) (col3 (get_affine img))) as [d|e];
    cbn [bind]; [|reflexivity].
  destruct (np.mdot scale point) as [d'|e]; cbn [bind]; [|reflexivity].
  reflexivity.
Qed.


(** ** Fields *)

Lemma nth_error_zip {A B : Type} (l1 : list A) (l2 : list B) (n : nat) (a : A) (b : B) :
  nth_error l1 n = Some a -> nth_error l2 n = Some b ->
  nth_error (combine l1 l2) n = Some (a, b).
Proof.
  revert l1 l2. induction n as [|n IH]; intros [|x l1] [|y l2] H1 H2;
    try discriminate; simpl in *.
  - congruence.
  - now apply IH.
Qed.

Section Fields.
Context {A B C : Type}.

Lemma zip_with_pure (e : exn) (f : A -> B -> C) (l1 : list A) (l2 : list B) :
  List.length l1 = List.length l2 ->
  np.zip_with e (fun a b => Ok (f a b)) l1 l2
  = Ok (map (fun p => f (fst p) (snd p)) (combine l1 l2)).
Proof.
  revert l2. induction l1 as [|a l1 IH]; intros [|b l2] Hlen;
    try discriminate; [reflexivity|].
  simpl. rewrite IH by (simpl in Hlen; lia). reflexivity.
Qed.

Lemma zip_field_ok (f : A -> B -> C) (x : field A) (y : field B) :
  arr.shape2 x = arr.shape2 y -> arr.zip_field f x y = Ok (zipped f x y).
Proof.
  unfold arr.zip_field, zipped, arr.shape2.
  revert y. induction x as [|r x IH]; intros [|r' y] Hs; try discriminate;
    [reflexivity|].
  simpl in Hs. injection Hs as Hr Hs.
  cbn [np.zip_with]. rewrite (zip_with_pure _ f r r' Hr), (IH y Hs). reflexivity.
Qed.

Lemma shape2_zipped (f : A -> B -> C) (x : field A) (y : field B) :
  arr.shape2 x = arr.shape2 y -> arr.shape2 (zipped f x y) = arr.shape2 x.
Proof.
  unfold zipped, arr.shape2.
  revert y. induction x as [|r x IH]; intros [|r' y] Hs; try discriminate;
    [reflexivity|].
  simpl in Hs. injection Hs as Hr Hs. simpl.
  rewrite length_map, length_combine, <- Hr, Nat.min_id. f_equal. now apply IH.
Qed.

Lemma pixel_zipped (f : A -> B -> C) (x : field A) (y : field B) (r c : nat)
      (a : A) (b : B) :
  arr.pixel x r c = Some a -> arr.pixel y r c = Some b ->
  arr.pixel (zipped f x y) r c = Some (f a b).
Proof.
  unfold arr.pixel, zipped. intros Hx Hy.
  destruct (nth_error x r) as [rx|] eqn:Ex; [|discriminate].
  destruct (nth_error y r) as [ry|] eqn:Ey; [|discriminate].
  rewrite nth_error_map, (nth_error_zip _ _ _ _ _ Ex Ey). simpl.
  rewrite nth_error_map, (nth_error_zip _ _ _ _ _ Hx Hy). reflexivity.
Qed.

Lemma shape2_map (g : A -> B) (m : field A) :
  arr.shape2 (map (map g) m) = arr.shape2 m.
Proof.
  unfold arr.shape2. rewrite map_map. apply map_ext. intros r. apply length_map.
Qed.

Lemma pixel_map (g : A -> B) (m : field A) (r c : nat) :
  arr.pixel (map (map g) m) r c = option_map g (arr.pixel m r c).
Proof.
  unfold arr.pixel. rewrite nth_error_map.
  destruct (nth_error m r) as [row|]; simpl; [|reflexivity].
  apply nth_error_map.
Qed.

End Fields.

Lemma pixel_greater (f : field Q) (t : Q) (r c : nat) (x : Q) :
  arr.pixel f r c = Some x ->
  exists b, arr.pixel (arr.greater f t) r c = Some b /\ (b = true <-> t < x).
Proof.
  intros Hx. unfold arr.greater. rewrite pixel_map, Hx. simpl.
  eexists. split; [reflexivity|]. apply Qlt_bool_true.
Qed.

Lemma pixel_ones_like (f : field Q) (r c : nat) (x : Q) :
  arr.pixel f r c = Some x -> arr.pixel (arr.ones_like f) r c = Some 1.
Proof.
  intros Hx. unfold arr.ones_like. rewrite pixel_map, Hx. reflexivity.
Qed.

Lemma any_pixel (b : field bool) :
  arr.any b = true <-> exists r c, arr.pixel b r c = Some true.
Proof.
  unfold arr.any, arr.pixel. rewrite existsb_exists. split.
  - intros (row & Hrow & Hany). apply existsb_exists in Hany as (x & Hx & ->).
    apply In_nth_error in Hrow as (r & Hr). apply In_nth_error in Hx as (c & Hc).
    exists r, c. now rewrite Hr.
  - intros (r & c & Hp). destruct (nth_error b r) as [row|] eqn:Er; [|discriminate].
    exists row. split; [now apply nth_error_In with r|].
    apply existsb_exists. exists true. split; [now apply nth_error_In with c|reflexivity].
Qed.

Lemma any_less (f : field Q) (level : Q) :
  arr.any (arr.less f level) = true <->
  exists r c x, arr.pixel f r c = Some x /\ x < level.
Proof.
  rewrite any_pixel. unfold arr.less. split.
  - intros (r & c & Hp). rewrite pixel_map in Hp.
    destruct (arr.pixel f r c) as [x|] eqn:Ex; [|discriminate].
    simpl in Hp. injection Hp as Hp. apply Qlt_bool_true in Hp. now exists r, c, x.
  - intros (r & c & x & Hp & Hlt). exists r, c. rewrite pixel_map, Hp. simpl.
    f_equal. now apply Qlt_bool_true.
Qed.

Lemma any_greater (f : field Q) (level : Q) :
  arr.any (arr.greater f level) = true <->
  exists r c x, arr.pixel f r c = Some x /\ level < x.
Proof.
  rewrite any_pixel. unfold arr.greater. split.
  - intros (r & c & Hp). rewrite pixel_map in Hp.
    destruct (arr.pixel f r c) as [x|] eqn:Ex; [|discriminate].
    simpl in Hp. injection Hp as Hp. apply Qlt_bool_true in Hp. now exists r, c, x.
  - intros (r & c & x & Hp & Hlt). exists r, c. rewrite pixel_map, Hp. simpl.
    f_equal. now apply Qlt_bool_true.
Qed.

(** ** image.mask and image.blend, pixel by pixel *)

Lemma shape2_truth (a : array2) : arr.shape2 (arr.truth a) = arr.shape2 (arr.number a).
Proof.
  destruct a as [m|m]; simpl; now rewrite shape2_map.
Qed.

Lemma mask_pixels (img : field rgb) (m : array2) :
  arr.shape2 img = arr.shape2 (arr.number m) ->
  exists masked,
    image.mask img m = Ok masked /\
    arr.shape2 masked = arr.shape2 img /\
    forall r c px b,
      arr.pixel img r c = Some px -> arr.pixel (arr.truth m) r c = Some b ->
      arr.pixel masked r c = Some (if b then px else image.background).
Proof.
  intros Hs. rewrite <- shape2_truth in Hs.
  eexists. unfold image.mask. rewrite (zip_field_ok _ _ _ Hs).
  split; [reflexivity|]. split; [now apply shape2_zipped|].
  intros r c px b Hpx Hb.
  exact (pixel_zipped (fun (p : rgb) (t : bool) => if t then p else image.background)
                      _ _ _ _ _ _ Hpx Hb).
Qed.

Lemma blend_pixels (under over : field rgb) (alpha : array2) :
  arr.shape2 under = arr.shape2 over ->
  arr.shape2 over = arr.shape2 (arr.number alpha) ->
  exists out,
    image.blend under over alpha = Ok out /\
    arr.shape2 out = arr.shape2 under /\
    forall r c pu po a,
      arr.pixel under r c = Some pu -> arr.pixel over r c = Some po ->
      arr.pixel (arr.number alpha) r c = Some a ->
      arr.pixel out r c
      = Some (image.rgb_add (image.rgb_scale pu (1 - a)) (image.rgb_scale po a)).
Proof.
  intros H1 H2. assert (H3 : arr.shape2 under = arr.shape2 (arr.number alpha)) by congruence.
  eexists. unfold image.blend.
  rewrite (zip_field_ok _ _ _ H3), (zip_field_ok _ _ _ H2). cbn [bind].
  assert (H4 : arr.shape2 (zipped (fun p a => image.rgb_scale p (1 - a)) under (arr.number alpha))
               = arr.shape2 (zipped image.rgb_scale over (arr.number alpha))).
  { rewrite !shape2_zipped by assumption. assumption. }
  rewrite (zip_field_ok _ _ _ H4).
  split; [reflexivity|]. split.
  - rewrite !shape2_zipped by assumption. reflexivity.
  - intros r c pu po a Hu Ho Ha.
    apply (pixel_zipped image.rgb_add).
    + exact (pixel_zipped (fun p t => image.rgb_scale p (1 - t)) _ _ _ _ _ _ Hu Ha).
    + exact (pixel_zipped image.rgb_scale _ _ _ _ _ _ Ho Ha).
Qed.

(** ** overlay_slice *)

Lemma if_true_nonzero (t : Q) : ~ t == 0 -> if_true (Some t) = Some t.
Proof.
  intros Hne. simpl. destruct (Qeq_bool t 0) eqn:E; [|reflexivity].
  apply Qeq_bool_iff in E. contradiction.
Qed.

Lemma if_true_zero (t : Q) : t == 0 -> if_true (Some t) = None.
Proof.
  intros Hz. simpl. apply Qeq_bool_iff in Hz. now rewrite Hz.
Qed.

Section CompositorProperties.
Context `{ext : Externals}.

(** C1 (as amended).  When [color_mask_thresh] is absent or a non-zero
    number, the colour mask of [overlay_slice] is resolved by the
    three-tier policy of the specification, applied to the sampled colour
    field multiplied by [color_scale]: a colour-mask volume is sampled, and
    binarized by a strict greater-than comparison when the threshold is
    given, else used as it is; without a colour-mask volume the colour field
    is binarized at the threshold when it is given; otherwise the mask is
    all ones. *)
Theorem color_mask_three_tier (sl : Slice) (options : Options) (window : Q * Q)
        (img_base img_color : Volume) (img_color_mask img_alpha : option Volume)
        (b c : field Q) (base : field rgb) :
  (color_mask_thresh options = None \/
   exists t, color_mask_thresh options = Some t /\ ~ t == 0) ->
  sample sl img_base (interp_order options) = Ok b ->
  image.colorize b "gray" window = Ok base ->
  sample sl img_color (interp_order options) = Ok c ->
  let sl_color := arr.times c (color_scale options) in
  sl_color_mask sl options img_color_mask sl_color
  = spec_color_mask sl options img_color_mask sl_color
  /\ sl_blend sl options window img_base (Some img_color) img_color_mask img_alpha
     = (cmask <- spec_color_mask sl options img_color_mask sl_color ;;
        colored <- image.colorize sl_color (color_map options) (color_lims options) ;;
        masked <- image.mask colored cmask ;;
        match img_alpha with
        | Some ia => alpha <- sl_scaled_alpha sl options ia ;;
                     image.blend base masked (FloatArr alpha)
        | None => image.blend base masked cmask
        end)
  /\ (forall f t r k x, arr.pixel f r k = Some x ->
        exists bit, arr.pixel (arr.greater f t) r k = Some bit /\ (bit = true <-> t < x))
  /\ (forall f r k x, arr.pixel f r k = Some x ->
        arr.pixel (arr.ones_like f) r k = Some 1).
Proof.
  intros Hgiven Hb Hbase Hc sl_color.
  assert (Hpolicy : sl_color_mask sl options img_color_mask sl_color
                    = spec_color_mask sl options img_color_mask sl_color).
  { unfold sl_color_mask, spec_color_mask, apply_policy, resolve_policy.
    destruct Hgiven as [E | (t & E & Hne)]; rewrite E.
    - destruct img_color_mask; reflexivity.
    - rewrite (if_true_nonzero t Hne). destruct img_color_mask; reflexivity. }
  split; [exact Hpolicy|]. split; [|split].
  - unfold sl_blend. rewrite Hb. cbn [bind]. rewrite Hbase. cbn [bind].
    rewrite Hc. cbn [bind]. fold sl_color. rewrite Hpolicy. reflexivity.
  - intros f t r k x. apply pixel_greater.
  - intros f r k x. apply pixel_ones_like.
Qed.

(** C2.  With a colour volume and no alpha volume, the base layer and
    the masked colour layer are blended with the resolved colour mask
    itself as the weight: a binarized mask gives the colour pixel where
    the mask is true and the base pixel elsewhere, a continuous mask [a]
    gives the mix [base*(1-a) + colour*a]. *)
Theorem color_mask_is_blend_weight (sl : Slice) (options : Options) (window : Q * Q)
        (img_base img_color : Volume) (img_color_mask : option Volume)
        (b c : field Q) (base colored : field rgb) (cmask : array2) :
  sample sl img_base (interp_order options) = Ok b ->
  image.colorize b "gray" window = Ok base ->
  sample sl img_color (interp_order options) = Ok c ->
  sl_color_mask sl options img_color_mask (arr.times c (color_scale options)) = Ok cmask ->
  image.colorize (arr.times c (color_scale options)) (color_map options)
                 (color_lims options) = Ok colored ->
  arr.shape2 base = arr.shape2 colored ->
  arr.shape2 colored = arr.shape2 (arr.number cmask) ->
  exists masked out,
    image.mask colored cmask = Ok masked /\
    image.blend base masked cmask = Ok out /\
    sl_blend sl options window img_base (Some img_color) img_color_mask None = Ok out /\
    match cmask with
    | BoolArr m =>
        forall r c bit pb pc,
          arr.pixel m r c = Some bit -> arr.pixel base r c = Some pb ->
          arr.pixel colored r c = Some pc ->
          exists po, arr.pixel out r c = Some po /\ rgb_eq po (if bit then pc else pb)
    | FloatArr m =>
        forall r c a pb pc,
          arr.pixel m r c = Some a -> arr.pixel base r c = Some pb ->
          arr.pixel colored r c = Some pc ->
          exists po, arr.pixel out r c = Some po /\
                     rgb_eq po (image.rgb_add (image.rgb_scale pb (1 - a))
                                              (image.rgb_scale pc a))
    end.
Proof.
  intros Hb Hbase Hc Hcmask Hcol Hs1 Hs2.
  destruct (mask_pixels colored cmask Hs2) as (masked & Hmask & Hsm & Hpm).
  destruct (blend_pixels base masked cmask) as (out & Hblend & Hso & Hpo);
    [congruence|congruence|].
  exists masked, out. split; [assumption|]. split; [assumption|]. split.
  - unfold sl_blend. rewrite Hb. cbn [bind]. rewrite Hbase. cbn [bind].
    rewrite Hc. cbn [bind]. rewrite Hcmask. cbn [bind]. rewrite Hcol. cbn [bind].
    rewrite Hmask. cbn [bind]. assumption.
  - destruct cmask as [m|m]; cbn [arr.number arr.truth] in *.
    + intros r k bit pb pc Hbit Hpb Hpc.
      eexists. split.
      * refine (Hpo r k pb _ (if bit then 1 else 0) Hpb (Hpm r k pc bit Hpc Hbit) _).
        rewrite pixel_map, Hbit. reflexivity.
      * destruct pb as [[r1 g1] b1], pc as [[r2 g2] b2].
        destruct bit; cbn [image.rgb_add image.rgb_scale image.background rgb_eq];
          repeat split; ring.
    + intros r k a pb pc Ha Hpb Hpc.
      eexists. split.
      * refine (Hpo r k pb _ a Hpb (Hpm r k pc (negb (Qeq_bool a 0)) Hpc _) Ha).
        rewrite pixel_map, Ha. reflexivity.
      * destruct pb as [[r1 g1] b1], pc as [[r2 g2] b2].
        destruct (Qeq_bool a 0) eqn:E;
          cbn [negb image.rgb_add image.rgb_scale image.background rgb_eq].
        -- apply Qeq_bool_iff in E. rewrite E. repeat split; ring.
        -- repeat split; reflexivity.
Qed.

(** C3.  With a colour volume and an alpha volume, the blend weight is
    [scale_clip] of the sampled alpha volume with [options.alpha_lims]:
    the same field [alpha] whatever the threshold and the colour-mask
    volume, and each output pixel is [base*(1-a) + colour*a] for the
    alpha sample [a]. *)
Theorem alpha_is_blend_weight (sl : Slice) (options : Options) (window : Q * Q)
        (img_base img_color img_alpha : Volume) (sl_alpha alpha : field Q) :
  sample sl img_alpha (interp_order options) = Ok sl_alpha ->
  image.scale_clip sl_alpha (alpha_lims options) = Ok alpha ->
  forall (thresh : option Q) (img_color_mask : option Volume)
         (b c : field Q) (base colored masked : field rgb) (cmask : array2),
    sample sl img_base (interp_order options) = Ok b ->
    image.colorize b "gray" window = Ok base ->
    sample sl img_color (interp_order options) = Ok c ->
    sl_color_mask sl (with_thresh options thresh) img_color_mask
                  (arr.times c (color_scale options)) = Ok cmask ->
    image.colorize (arr.times c (color_scale options)) (color_map options)
                   (color_lims options) = Ok colored ->
    image.mask colored cmask = Ok masked ->
    arr.shape2 base = arr.shape2 masked ->
    arr.shape2 masked = arr.shape2 alpha ->
    exists out,
      sl_blend sl (with_thresh options thresh) window img_base (Some img_color)
               img_color_mask (Some img_alpha) = Ok out /\
      image.blend base masked (FloatArr alpha) = Ok out /\
      forall r c a pb pm,
        arr.pixel alpha r c = Some a -> arr.pixel base r c = Some pb ->
        arr.pixel masked r c = Some pm ->
        arr.pixel out r c
        = Some (image.rgb_add (image.rgb_scale pb (1 - a)) (image.rgb_scale pm a)).
Proof.
  intros Ha Hclip thresh img_color_mask b c base colored masked cmask
         Hb Hbase Hc Hcmask Hcol Hmask Hs1 Hs2.
  destruct (blend_pixels base masked (FloatArr alpha) Hs1 Hs2) as (out & Hblend & _ & Hpo).
  exists out. split; [|split; [assumption|]].
  - unfold sl_blend, sl_scaled_alpha.
    cbn [with_thresh interp_order color_scale color_map color_lims alpha_lims].
    rewrite Hb. cbn [bind]. rewrite Hbase. cbn [bind]. rewrite Hc. cbn [bind].
    rewrite Hcmask. cbn [bind]. rewrite Hcol. cbn [bind]. rewrite Hmask. cbn [bind].
    rewrite Ha. cbn [bind]. rewrite Hclip. cbn [bind]. assumption.
  - intros r k a pb pm Hpa Hpb Hpm. now apply Hpo.
Qed.

(** C4.  Without colour, mask and alpha volumes the image returned by
    [overlay_slice] is the base volume sampled at [options.interp_order]
    and colorized through the gray palette over [window]. *)
Theorem base_only_is_grayscale (sl : Slice) (options : Options) (window : Q * Q)
        (img_base : Volume) (img_color_mask : option Volume) :
  overlay_slice sl options window img_base None None img_color_mask None
  = (b <- sample sl img_base (interp_order options) ;;
     image.colorize b "gray" window).
Proof.
  unfold overlay_slice, sl_blend.
  destruct (sample sl img_base (interp_order options)) as [b|e]; [|reflexivity].
  cbn [bind]. destruct (image.colorize b "gray" window); reflexivity.
Qed.

(** C5.  With a mask volume the image returned by [overlay_slice] is
    [image.mask] of the blended result with the mask sampled at
    [options.interp_order]; without one the blended result is returned
    unchanged. *)
Theorem final_mask_stage (sl : Slice) (options : Options) (window : Q * Q)
        (img_base : Volume) (img_color img_color_mask img_alpha : option Volume) :
  (forall img_mask,
      overlay_slice sl options window img_base (Some img_mask)
                    img_color img_color_mask img_alpha
      = (blended <- sl_blend sl options window img_base
                             img_color img_color_mask img_alpha ;;
         m <- sample sl img_mask (interp_order options) ;;
         image.mask blended (FloatArr m)))
  /\ overlay_slice sl options window img_base None img_color img_color_mask img_alpha
     = sl_blend sl options window img_base img_color img_color_mask img_alpha.
Proof.
  split; [reflexivity|].
  unfold overlay_slice.
  destruct (sl_blend sl options window img_base img_color img_color_mask img_alpha);
    reflexivity.
Qed.

(** C8.  A [color_mask_thresh] equal to zero acts as no threshold: the
    composited image is that of the same call without a threshold, a
    colour-mask volume is used unbinarized and, without one, the colour
    mask is all ones. *)
Theorem zero_threshold_is_no_threshold (sl : Slice) (options : Options)
        (window : Q * Q) (img_base : Volume)
        (img_mask img_color img_color_mask img_alpha : option Volume) (t : Q) :
  color_mask_thresh options = Some t -> t == 0 ->
  overlay_slice sl options window img_base img_mask img_color img_color_mask img_alpha
  = overlay_slice sl (with_thresh options None) window img_base img_mask
                  img_color img_color_mask img_alpha
  /\ (forall cm sl_color,
        sl_color_mask sl options (Some cm) sl_color
        = (m <- sample sl cm (interp_order options) ;; Ok (FloatArr m)))
  /\ (forall sl_color,
        sl_color_mask sl options None sl_color = Ok (FloatArr (arr.ones_like sl_color))).
Proof.
  intros Et Hz.
  assert (Hm : forall cmv sl_color,
             sl_color_mask sl options cmv sl_color
             = sl_color_mask sl (with_thresh options None) cmv sl_color).
  { intros cmv sl_color. unfold sl_color_mask.
    cbn [with_thresh color_mask_thresh interp_order].
    rewrite Et, (if_true_zero t Hz). reflexivity. }
  split; [|split].
  - unfold overlay_slice, sl_blend, sl_scaled_alpha.
    cbn [with_thresh interp_order color_scale color_map color_lims alpha_lims].
    destruct img_color as [ic|]; [|reflexivity].
    destruct (sample sl img_base (interp_order options)) as [b|e]; [|reflexivity].
    cbn [bind]. destruct (image.colorize b "gray" window) as [base|e]; [|reflexivity].
    cbn [bind]. destruct (sample sl ic (interp_order options)) as [c|e]; [|reflexivity].
    cbn [bind]. rewrite Hm. reflexivity.
  - intros cm sl_color. unfold sl_color_mask. rewrite Et, (if_true_zero t Hz).
    reflexivity.
  - intros sl_color. unfold sl_color_mask. rewrite Et, (if_true_zero t Hz).
    reflexivity.
Qed.

End CompositorProperties.

(** ** draw_slice *)

Section DrawProperties.
Context `{ext : Externals}.

(** C10.  When a contour image is given, [draw_slice] draws the image,
    turns the axis off and then emits the contour call exactly when the
    sampled contour field has a value strictly below and a value strictly
    above the first level; otherwise the contour step is skipped and the
    call returns normally. *)
Theorem draw_slice_contour (sl : Slice) (opts : Options) (window : Q * Q)
        (img : Volume) (mask color_img color_mask alpha_img : option Volume)
        (contour_img : Volume) (level : Q) (levels : list Q) (colors : string)
        (ax : Axes) (sliced : field rgb) (f : field Q) :
  overlay_slice sl opts window img mask color_img color_mask alpha_img = Ok sliced ->
  sample sl contour_img 1 = Ok f ->
  (straddles f level ->
   draw_slice sl opts window img mask color_img color_mask alpha_img
              (Some contour_img) (level :: levels) colors ax
   = (Ok tt, ax ++ [Imshow sliced (extent sl); AxisOff;
                    Contour f (level :: levels) (extent sl) colors]))
  /\ (~ straddles f level ->
      draw_slice sl opts window img mask color_img color_mask alpha_img
                 (Some contour_img) (level :: levels) colors ax
      = (Ok tt, ax ++ [Imshow sliced (extent sl); AxisOff])).
Proof.
  intros Hov Hf.
  assert (Hrun : draw_slice sl opts window img mask color_img color_mask alpha_img
                            (Some contour_img) (level :: levels) colors ax
                 = if arr.any (arr.less f level) && arr.any (arr.greater f level)
                   then (Ok tt, ax ++ [Imshow sliced (extent sl); AxisOff;
                                       Contour f (level :: levels) (extent sl) colors])
                   else (Ok tt, ax ++ [Imshow sliced (extent sl); AxisOff])).
  { unfold draw_slice, dbind, lift, call, dret. rewrite Hov, Hf.
    cbn [first_item]. rewrite <- !app_assoc. cbn [app].
    destruct (arr.any (arr.less f level) && arr.any (arr.greater f level));
      [rewrite <- app_assoc|]; reflexivity. }
  rewrite Hrun. split.
  - intros (Hlo & Hhi). apply any_less in Hlo. apply any_greater in Hhi.
    now rewrite Hlo, Hhi.
  - intros Hno.
    destruct (arr.any (arr.less f level)) eqn:Elo; [|reflexivity].
    destruct (arr.any (arr.greater f level)) eqn:Ehi; [|reflexivity].
    exfalso. apply Hno. split; [now apply any_less|now apply any_greater].
Qed.

End DrawProperties.

(** ** common_options *)

(** C9.  [common_options()] does not return a parser: the fourth
    [add_argument] call passes the keyword [noptions], which the action
    constructor rejects with a [TypeError]. *)
Theorem common_options_raises : common_options = Raise (TypeError "noptions").
Proof. reflexivity. Qed.

(** ** Instances of the theorems on the example inputs *)

Lemma peak_single_voxel :
  single_positive_voxel Example.peak 2 2 2 1 0 1.
Proof.
  unfold single_positive_voxel. repeat split; try (simpl; lia).
  intros i' j' k' Hi Hj Hk Hne.
  destruct i' as [|[|]]; destruct j' as [|[|]]; destruct k' as [|[|]];
    try lia; reflexivity.
Qed.

Lemma center_of_mass_single_voxel_witness :
  exists x y z w,
    center_of_mass Example.peak = Ok [x; y; z; w] /\
    Forall2 Qeq [x; y; z] [12; 20; 34] /\ w == 1.
Proof.
  destruct (center_of_mass_single_voxel Example.peak 2 2 2 1 0 1 peak_single_voxel)
    as (x & y & z & w & E & Hxyz & Hw).
  exists x, y, z, w. split; [exact E|]. split.
  - inversion Hxyz as [|? ? ? ? Hx Hyz]; subst.
    inversion Hyz as [|? ? ? ? Hy Hz]; subst.
    inversion Hz as [|? ? ? ? Hz' _]; subst.
    repeat constructor; [rewrite Hx|rewrite Hy|rewrite Hz']; reflexivity.
  - simpl in Hw. rewrite Hw. reflexivity.
Defined.

(** C6, the claim as stated fails: on a volume with a single positive
    voxel the returned vector has four components, not three. *)
Lemma center_of_mass_four_components :
  single_positive_voxel Example.peak 2 2 2 1 0 1 /\
  ~ (exists p, center_of_mass Example.peak = Ok p /\ List.length p = 3%nat).
Proof.
  split; [exact peak_single_voxel|].
  intros (p & E & Hlen). vm_compute in E. injection E as <-. discriminate Hlen.
Qed.



Lemma color_mask_three_tier_witness :
  sl_color_mask (ext := Example.planes) 0%nat (Example.opts (Some (1 # 2))) None
                [[1; -1]; [1 # 2; 0]]
  = Ok (BoolArr [[true; false]; [false; false]]).
Proof.
  edestruct (color_mask_three_tier (ext := Example.planes) 0%nat
                                   (Example.opts (Some (1 # 2))) (0, 1)
                                   Example.base Example.color None None)
    as (E & _).
  - right. exists (1 # 2). split; [reflexivity|]. intro Hz. discriminate Hz.
  - reflexivity.
  - reflexivity.
  - reflexivity.
  - exact E.
Defined.

(** C1, the claim as stated fails: with a threshold of zero given and no
    colour-mask volume, the policy binarizes the colour field at zero while
    the code returns the all-ones mask. *)
Lemma zero_threshold_counterexample :
  spec_color_mask (ext := Example.planes) 0%nat (Example.opts (Some 0)) None [[1; -1]]
  = Ok (BoolArr [[true; false]])
  /\ sl_color_mask (ext := Example.planes) 0%nat (Example.opts (Some 0)) None [[1; -1]]
     = Ok (FloatArr [[1; 1]])
  /\ sl_color_mask (ext := Example.planes) 0%nat (Example.opts (Some 0)) None [[1; -1]]
     <> spec_color_mask (ext := Example.planes) 0%nat (Example.opts (Some 0)) None [[1; -1]].
Proof.
  split; [reflexivity|]. split; [reflexivity|]. intro E. discriminate E.
Qed.

Lemma color_mask_is_blend_weight_witness :
  exists out,
    sl_blend (ext := Example.planes) 0%nat (Example.opts (Some (1 # 2))) (0, 1) Example.base
             (Some Example.color) None None = Ok out /\
    (exists po, arr.pixel out 0 0 = Some po /\ rgb_eq po (1, 1, 1)) /\
    (exists po, arr.pixel out 0 1 = Some po /\ rgb_eq po (1 # 2, 1 # 2, 1 # 2)).
Proof.
  edestruct (color_mask_is_blend_weight (ext := Example.planes) 0%nat
                                        (Example.opts (Some (1 # 2))) (0, 1)
                                        Example.base Example.color None)
    as (masked & out & _ & _ & E & Hpix);
    [reflexivity | reflexivity | reflexivity | reflexivity | reflexivity
    | reflexivity | reflexivity | ].
  exists out. split; [exact E|]. split.
  - destruct (Hpix 0%nat 0%nat true _ _ eq_refl eq_refl eq_refl) as (po & Hpo & Heq).
    exists po. split; [exact Hpo|]. destruct po as [[r g] b].
    vm_compute in Heq. vm_compute. exact Heq.
  - destruct (Hpix 0%nat 1%nat false _ _ eq_refl eq_refl eq_refl) as (po & Hpo & Heq).
    exists po. split; [exact Hpo|]. destruct po as [[r g] b].
    vm_compute in Heq. vm_compute. exact Heq.
Defined.

Lemma alpha_is_blend_weight_witness :
  exists out,
    sl_blend (ext := Example.planes) 0%nat (with_thresh (Example.opts None) (Some 5))
             (0, 1) Example.base
             (Some Example.color) (Some Example.cmask) (Some Example.alpha) = Ok out /\
    exists po, arr.pixel out 0 1 = Some po /\ rgb_eq po (1 # 4, 1 # 4, 1 # 4).
Proof.
  edestruct (alpha_is_blend_weight (ext := Example.planes) 0%nat (Example.opts None)
                                   (0, 1) Example.base Example.color Example.alpha
                                   _ _ eq_refl eq_refl (Some 5) (Some Example.cmask))
    as (out & E & _ & Hpix);
    [reflexivity | reflexivity | reflexivity | reflexivity | reflexivity
    | reflexivity | reflexivity | reflexivity | ].
  exists out. split; [exact E|].
  eexists. split; [apply Hpix; reflexivity|].
  vm_compute. repeat split; reflexivity.
Defined.

Lemma zero_threshold_is_no_threshold_witness :
  overlay_slice (ext := Example.planes) 0%nat (Example.opts (Some 0)) (0, 1) Example.base None
                (Some Example.color) None None
  = overlay_slice (ext := Example.planes) 0%nat (Example.opts None) (0, 1) Example.base None
                  (Some Example.color) None None.
Proof.
  exact (proj1 (zero_threshold_is_no_threshold
                  0%nat (Example.opts (Some 0)) (0, 1) Example.base None
                  (Some Example.color) None None 0 eq_refl (Qeq_refl 0))).
Defined.

Lemma draw_slice_contour_witness :
  exists sliced f,
    draw_slice (ext := Example.planes) 0%nat (Example.opts None) (0, 1)
               Example.base None None None None (Some Example.color)
               default_contour_levels default_contour_colors []
    = (Ok tt, [Imshow sliced [0; 2; 0; 2]; AxisOff;
               Contour f default_contour_levels [0; 2; 0; 2] default_contour_colors]).
Proof.
  edestruct (draw_slice_contour (ext := Example.planes) 0%nat (Example.opts None)
                                (0, 1) Example.base
                                None None None None Example.color
                                (95 # 100) [] default_contour_colors [])
    as (Hdraw & _); [reflexivity | reflexivity | ].
  do 2 eexists. apply Hdraw. split.
  - exists 0%nat, 1%nat, (-1). split; reflexivity.
  - exists 0%nat, 0%nat, 1. split; reflexivity.
Defined.

(** * Further properties *)

(** ** sample_point: errors *)

Lemma inv_singular (a b c d e f g h i : Q) :
  np.det3 a b c d e f g h i == 0 ->
  np.inv [[a; b; c]; [d; e; f]; [g; h; i]] = Raise LinAlgError.
Proof.
  intros Hz. cbn [np.inv]. cbv zeta. apply Qeq_bool_iff in Hz. now rewrite Hz.
Qed.

(** X1.  When the 3 x 3 linear part of the affine has a row or a column
    of zeros, [sample_point] raises [LinAlgError], whatever the point and
    the interpolation order: the matrix inverse, the first thing computed,
    meets a zero pivot. *)
Theorem sample_point_zero_row_or_column (img : Volume) (point : np.vector) (order : Z) :
  zero_row_or_column (affine img) ->
  sample_point img point order = Raise LinAlgError.
Proof.
  destruct img as [[[[[a00 a01] a02] a03] [[[a10 a11] a12] a13]
                    [[[a20 a21] a22] a23] [[[a30 a31] a32] a33]] d].
  cbn [affine zero_row_or_column row0 row1 row2]. intros Hz.
  unfold sample_point.
  cbn [get_affine affine sub33 rows row_list row0 row1 row2 row3 firstn map].
  rewrite inv_singular; [reflexivity|]. unfold np.det3.
  destruct Hz as [(E1 & E2 & E3)|[(E1 & E2 & E3)|[(E1 & E2 & E3)|[(E1 & E2 & E3)|
                 [(E1 & E2 & E3)|(E1 & E2 & E3)]]]]];
    rewrite E1, E2, E3; ring.
Qed.

(** X2.  With an invertible affine, a point that does not have exactly
    three coordinates makes [sample_point] raise [ValueError]. *)
Theorem sample_point_bad_point (img : Volume) (point : np.vector) (order : Z) :
  ~ linear_det (affine img) == 0 ->
  List.length point <> 3%nat ->
  sample_point img point order = Raise ValueError.
Proof.
  destruct img as [[[[[a00 a01] a02] a03] [[[a10 a11] a12] a13]
                    [[[a20 a21] a22] a23] [[[a30 a31] a32] a33]] d].
  cbn [affine linear_det row0 row1 row2]. intros Hdet Hlen.
  unfold sample_point.
  cbn [get_affine affine sub33 col3 rows row_list row0 row1 row2 row3 firstn map nth
       np.inv].
  cbv zeta.
  destruct (Qeq_bool (np.det3 a00 a01 a02 a10 a11 a12 a20 a21 a22) 0) eqn:Edet.
  { apply Qeq_bool_iff in Edet. contradiction. }
  destruct point as [|x [|y [|z [|w p]]]]; try reflexivity.
  simpl in Hlen. congruence.
Qed.

Lemma squeeze_singleton (n0 n1 n2 : nat) :
  n0 = 1%nat \/ n1 = 1%nat \/ n2 = 1%nat ->
  Nat.eqb 3 (List.length (filter (fun n => negb (Nat.eqb n 1)) [n0; n1; n2])) = false.
Proof.
  intros Hone. cbn [filter].
  destruct (Nat.eqb n0 1) eqn:E0, (Nat.eqb n1 1) eqn:E1, (Nat.eqb n2 1) eqn:E2;
    try reflexivity.
  apply Nat.eqb_neq in E0, E1, E2. lia.
Qed.

(** X4.  When the data has an axis of length one, [sample_point] raises
    [RuntimeError] for every three-coordinate point and every order (the
    affine being invertible): the squeezed data has fewer than three
    axes. *)
Theorem sample_point_singleton_axis (img : Volume) (n0 n1 n2 : nat)
        (x y z : Q) (order : Z) :
  np.shape (get_data img) = [n0; n1; n2] ->
  n0 = 1%nat \/ n1 = 1%nat \/ n2 = 1%nat ->
  ~ linear_det (affine img) == 0 ->
  sample_point img [x; y; z] order = Raise RuntimeError.
Proof.
  destruct img as [[[[[a00 a01] a02] a03] [[[a10 a11] a12] a13]
                    [[[a20 a21] a22] a23] [[[a30 a31] a32] a33]] d].
  cbn [affine get_data linear_det row0 row1 row2]. intros Hshape Hone Hdet.
  unfold sample_point.
  cbn [get_affine affine sub33 col3 rows row_list row0 row1 row2 row3 firstn map nth
       np.inv get_data].
  cbv zeta.
  destruct (Qeq_bool (np.det3 a00 a01 a02 a10 a11 a12 a20 a21 a22) 0) eqn:Edet.
  { apply Qeq_bool_iff in Edet. contradiction. }
  cbn [bind np.mdot np.dot np.mapM np.vdot np.neg map np.transpose combine np.add
       np.zip_with fst snd].
  unfold ndinterp.map_coordinates, np.squeeze.
  cbn [np.shape np.buf]. rewrite Hshape.
  cbn [List.length]. rewrite (squeeze_singleton n0 n1 n2 Hone). reflexivity.
Qed.

(** ** sample_point: the inverse affine map *)







(** ** center_of_mass: totality, bounds and edge cases *)

Lemma argmax_from_bound (l : list Q) :
  forall best bi i,
    np.argmax_from best bi i l = bi \/
    (i <= np.argmax_from best bi i l < i + List.length l)%nat.
Proof.
  induction l as [|x l IH]; intros best bi i; simpl; [now left|].
  destruct (np.Qlt_bool best x).
  - right. destruct (IH x i (S i)) as [E|Hr]; [rewrite E|]; lia.
  - destruct (IH best bi (S i)) as [E|Hr]; [now left|right; lia].
Qed.

Lemma argmax_nonempty (F : nat -> Q) (n : nat) :
  (0 < n)%nat -> exists r, np.argmax (map F (np.range n)) = Ok r /\ (r < n)%nat.
Proof.
  intros Hn. destruct n as [|n]; [lia|]. unfold np.range. simpl.
  eexists. split; [reflexivity|].
  destruct (argmax_from_bound (map F (seq 1 n)) (F 0%nat) 0%nat 1%nat) as [E|Hr].
  - rewrite E. lia.
  - rewrite length_map, length_seq in Hr. lia.
Qed.

Lemma argmax_empty (F : nat -> Q) : np.argmax (map F (np.range 0)) = Raise ValueError.
Proof. reflexivity. Qed.

(** The value [center_of_mass] computes once the three indices are known. *)
Lemma dot_affine_index (A : affine4) (i j k : nat) :
  exists x y z w,
    np.dot (rows A) [of_index i; of_index j; of_index k; 1] = Ok [x; y; z; w] /\
    Forall2 Qeq [x; y; z] (voxel_to_phys A i j k).
Proof.
  destruct A as [[[[a00 a01] a02] a03] [[[a10 a11] a12] a13]
                 [[[a20 a21] a22] a23] [[[a30 a31] a32] a33]].
  cbn [bind np.dot np.mapM np.vdot rows row_list row0 row1 row2 row3 voxel_to_phys].
  do 4 eexists. split; [reflexivity|]. repeat constructor; ring.
Qed.

(** X8.  On a 3-D volume with no empty axis [center_of_mass] always
    succeeds, whatever the data, and returns a four-component vector whose
    first three components are the physical coordinate of a voxel inside
    the volume. *)
Theorem center_of_mass_in_volume (img : Volume) (n0 n1 n2 : nat) :
  np.shape (get_data img) = [n0; n1; n2] ->
  (0 < n0)%nat -> (0 < n1)%nat -> (0 < n2)%nat ->
  exists i j k x y z w,
    (i < n0)%nat /\ (j < n1)%nat /\ (k < n2)%nat /\
    center_of_mass img = Ok [x; y; z; w] /\
    Forall2 Qeq [x; y; z] (voxel_to_phys (affine img) i j k).
Proof.
  intros Hshape H0 H1 H2. unfold center_of_mass. rewrite Hshape.
  unfold np.sum_axis12, np.sum_axis02, np.sum_axis01.
  destruct (argmax_nonempty
              (fun i =>
                 np.sum (map (fun j =>
                                np.sum (map (fun k => np.get3 (get_data img) n1 n2 i j k)
                                            (np.range n2)))
                             (np.range n1)))
              n0 H0) as (i & Ei & Hi).
  destruct (argmax_nonempty
              (fun j =>
                 np.sum (map (fun i =>
                                np.sum (map (fun k => np.get3 (get_data img) n1 n2 i j k)
                                            (np.range n2)))
                             (np.range n0)))
              n1 H1) as (j & Ej & Hj).
  destruct (argmax_nonempty
              (fun k =>
                 np.sum (map (fun i =>
                                np.sum (map (fun j => np.get3 (get_data img) n1 n2 i j k)
                                            (np.range n1)))
                             (np.range n0)))
              n2 H2) as (k & Ek & Hk).
  rewrite Ei, Ej, Ek. cbn [bind].
  destruct (dot_affine_index (affine img) i j k) as (x & y & z & w & E & Hxyz).
  exists i, j, k, x, y, z, w. rewrite E. repeat split; assumption.
Qed.

(** X9.  On a 3-D volume with an axis of length zero [center_of_mass]
    raises [ValueError]: one of the marginal sums is empty. *)
Theorem center_of_mass_empty_axis (img : Volume) (n0 n1 n2 : nat) :
  np.shape (get_data img) = [n0; n1; n2] ->
  n0 = 0%nat \/ n1 = 0%nat \/ n2 = 0%nat ->
  center_of_mass img = Raise ValueError.
Proof.
  intros Hshape Hempty. unfold center_of_mass. rewrite Hshape.
  unfold np.sum_axis12, np.sum_axis02, np.sum_axis01.
  destruct n0 as [|n0]; [reflexivity|].
  destruct (argmax_nonempty
              (fun i =>
                 np.sum (map (fun j =>
                                np.sum (map (fun k => np.get3 (get_data img) n1 n2 i j k)
                                            (np.range n2)))
                             (np.range n1)))
              (S n0) (Nat.lt_0_succ n0)) as (i & Ei & _).
  rewrite Ei. cbn [bind].
  destruct n1 as [|n1]; [reflexivity|].
  destruct (argmax_nonempty
              (fun j =>
                 np.sum (map (fun i =>
                                np.sum (map (fun k => np.get3 (get_data img) (S n1) n2 i j k)
                                            (np.range n2)))
                             (np.range (S n0))))
              (S n1) (Nat.lt_0_succ n1)) as (j & Ej & _).
  rewrite Ej. cbn [bind].
  destruct n2 as [|n2]; [reflexivity|]. lia.
Qed.

Lemma center_of_mass_length (img : Volume) (p : np.vector) :
  center_of_mass img = Ok p -> List.length p = 4%nat.
Proof.
  unfold center_of_mass.
  destruct (np.shape (get_data img)) as [|n0 [|n1 [|n2 [|n3 sh]]]]; try discriminate.
  destruct (np.argmax (np.sum_axis12 (get_data img) n0 n1 n2)) as [i|]; [|discriminate].
  destruct (np.argmax (np.sum_axis02 (get_data img) n0 n1 n2)) as [j|]; [|discriminate].
  destruct (np.argmax (np.sum_axis01 (get_data img) n0 n1 n2)) as [k|]; [|discriminate].
  cbn [bind].
  destruct (dot_affine_index (affine img) i j k) as (x & y & z & w & E & _).
  rewrite E. cbn [bind]. intros Hp. injection Hp as <-. reflexivity.
Qed.

(** X3.  The vector [center_of_mass] returns is never accepted by
    [sample_point] for the same image: the call raises [LinAlgError] when
    the affine is singular and [ValueError] otherwise, since the vector has
    four components. *)
Theorem sample_point_of_center_of_mass (img : Volume) (p : np.vector) (order : Z) :
  center_of_mass img = Ok p ->
  sample_point img p order = Raise LinAlgError \/
  sample_point img p order = Raise ValueError.
Proof.
  intros Hp. apply center_of_mass_length in Hp.
  destruct img as [[[[[a00 a01] a02] a03] [[[a10 a11] a12] a13]
                    [[[a20 a21] a22] a23] [[[a30 a31] a32] a33]] d].
  unfold sample_point.
  cbn [get_affine affine sub33 col3 rows row_list row0 row1 row2 row3 firstn map nth
       np.inv].
  cbv zeta.
  destruct (Qeq_bool (np.det3 a00 a01 a02 a10 a11 a12 a20 a21 a22) 0);
    [left; reflexivity|right].
  destruct p as [|x [|y [|z [|w [|v p]]]]]; try discriminate Hp. reflexivity.
Qed.

Lemma argmax_all_zero (F : nat -> Q) (n : nat) :
  (0 < n)%nat -> (forall p, (p < n)%nat -> F p == 0) ->
  np.argmax (map F (np.range n)) = Ok 0%nat.
Proof.
  intros Hn Hz. destruct n as [|n]; [lia|]. unfold np.range. simpl. f_equal.
  apply argmax_from_flat. apply Forall_forall. intros x Hx.
  apply in_map_iff in Hx as (p & <- & Hp). apply in_seq in Hp.
  rewrite (Hz p), (Hz 0%nat) by lia. apply Qle_refl.
Qed.

(** X10.  On an all-zero volume (with no empty axis) every marginal sum is
    flat, [np.argmax] takes the first index, and [center_of_mass] returns
    the physical position of voxel (0, 0, 0): the translation of the
    affine. *)
Theorem center_of_mass_all_zero (img : Volume) (n0 n1 n2 : nat) :
  all_zero_voxels img n0 n1 n2 ->
  (0 < n0)%nat -> (0 < n1)%nat -> (0 < n2)%nat ->
  exists x y z w,
    center_of_mass img = Ok [x; y; z; w] /\
    Forall2 Qeq [x; y; z] (translation (affine img)).
Proof.
  intros (Hshape & Hz) H0 H1 H2. unfold center_of_mass. rewrite Hshape.
  unfold np.sum_axis12, np.sum_axis02, np.sum_axis01.
  rewrite (argmax_all_zero _ n0 H0), (argmax_all_zero _ n1 H1), (argmax_all_zero _ n2 H2).
  - cbn [bind].
    destruct (dot_affine_index (affine img) 0 0 0) as (x & y & z & w & E & Hxyz).
    exists x, y, z, w. rewrite E. split; [reflexivity|].
    destruct (affine img) as [[[[a00 a01] a02] a03] [[[a10 a11] a12] a13]
                              [[[a20 a21] a22] a23] r3].
    cbn [voxel_to_phys translation row0 row1 row2] in *.
    inversion Hxyz as [|? ? ? ? Hx Hyz]; subst.
    inversion Hyz as [|? ? ? ? Hy Hz']; subst.
    inversion Hz' as [|? ? ? ? Hz'' _]; subst.
    repeat constructor; [rewrite Hx|rewrite Hy|rewrite Hz'']; unfold of_index; simpl; ring.
  - intros k Hk. apply (sum2_zero (fun i j => np.get3 (get_data img) n1 n2 i j k)).
    intros i j Hi Hj. now apply Hz.
  - intros j Hj. apply (sum2_zero (fun i k => np.get3 (get_data img) n1 n2 i j k)).
    intros i k Hi Hk. now apply Hz.
  - intros i Hi. apply (sum2_zero (fun j k => np.get3 (get_data img) n1 n2 i j k)).
    intros j k Hj Hk. now apply Hz.
Qed.

Lemma argmax_single_dip (F : nat -> Q) (n i : nat) :
  (i < n)%nat -> (2 <= n)%nat -> F i < 0 ->
  (forall p, (p < n)%nat -> p <> i -> F p == 0) ->
  np.argmax (map F (np.range n)) = Ok (first_other i).
Proof.
  intros Hi Hn Hneg Hz. unfold np.range.
  destruct n as [|[|n]]; try lia. cbn [seq map np.argmax]. f_equal.
  destruct i as [|i]; cbn [first_other].
  - apply (argmax_from_peak [] (map F (seq 2 n)) (F 1%nat) (F 0%nat) 0%nat 1%nat).
    + constructor.
    + rewrite (Hz 1%nat) by lia. assumption.
    + apply Forall_forall. intros x Hx.
      apply in_map_iff in Hx as (p & <- & Hp). apply in_seq in Hp.
      rewrite (Hz p), (Hz 1%nat) by lia. apply Qle_refl.
  - apply (argmax_from_flat (F 1%nat :: map F (seq 2 n))).
    apply Forall_forall. intros x Hx.
    change (F 1%nat :: map F (seq 2 n)) with (map F (seq 1 (S n))) in Hx.
    apply in_map_iff in Hx as (p & <- & Hp). apply in_seq in Hp.
    rewrite (Hz 0%nat) by lia.
    destruct (Nat.eq_dec p (S i)) as [->|Hne].
    + now apply Qlt_le_weak.
    + rewrite (Hz p) by lia. apply Qle_refl.
Qed.

(** X11.  On a volume whose only nonzero voxel (i, j, k) is negative, with
    at least two voxels along every axis, [center_of_mass] returns the
    position of the voxel whose three indices are each the first index
    other than i, j, k: along no axis does it find the nonzero voxel. *)
Theorem center_of_mass_single_negative (img : Volume) (n0 n1 n2 i j k : nat) :
  single_negative_voxel img n0 n1 n2 i j k ->
  (2 <= n0)%nat -> (2 <= n1)%nat -> (2 <= n2)%nat ->
  first_other i <> i /\ first_other j <> j /\ first_other k <> k /\
  exists x y z w,
    center_of_mass img = Ok [x; y; z; w] /\
    Forall2 Qeq [x; y; z]
            (voxel_to_phys (affine img) (first_other i) (first_other j) (first_other k)).
Proof.
  intros (Hshape & Hi & Hj & Hk & Hneg & Hz) H0 H1 H2.
  split; [destruct i; discriminate|]. split; [destruct j; discriminate|].
  split; [destruct k; discriminate|].
  set (d := get_data img) in *.
  assert (E0 : np.argmax (np.sum_axis12 d n0 n1 n2) = Ok (first_other i)).
  { unfold np.sum_axis12. apply argmax_single_dip; try assumption.
    - rewrite (sum2_single (fun q r => np.get3 d n1 n2 i q r) n1 n2 j k
                 (np.get3 d n1 n2 i j k)); try assumption; try reflexivity.
      intros q r Hq Hr Hne. apply Hz; tauto.
    - intros p Hp Hne. apply (sum2_zero (fun q r => np.get3 d n1 n2 p q r)).
      intros q r Hq Hr. apply Hz; tauto. }
  assert (E1 : np.argmax (np.sum_axis02 d n0 n1 n2) = Ok (first_other j)).
  { unfold np.sum_axis02. apply argmax_single_dip; try assumption.
    - rewrite (sum2_single (fun p r => np.get3 d n1 n2 p j r) n0 n2 i k
                 (np.get3 d n1 n2 i j k)); try assumption; try reflexivity.
      intros p r Hp Hr Hne. apply Hz; tauto.
    - intros q Hq Hne. apply (sum2_zero (fun p r => np.get3 d n1 n2 p q r)).
      intros p r Hp Hr. apply Hz; tauto. }
  assert (E2 : np.argmax (np.sum_axis01 d n0 n1 n2) = Ok (first_other k)).
  { unfold np.sum_axis01. apply argmax_single_dip; try assumption.
    - rewrite (sum2_single (fun p q => np.get3 d n1 n2 p q k) n0 n1 i j
                 (np.get3 d n1 n2 i j k)); try assumption; try reflexivity.
      intros p q Hp Hq Hne. apply Hz; tauto.
    - intros r Hr Hne. apply (sum2_zero (fun p q => np.get3 d n1 n2 p q r)).
      intros p q Hp Hq. apply Hz; tauto. }
  unfold center_of_mass. fold d. rewrite Hshape, E0, E1, E2. cbn [bind].
  destruct (dot_affine_index (affine img) (first_other i) (first_other j) (first_other k))
    as (x & y & z & w & E & Hxyz).
  exists x, y, z, w. rewrite E. split; [reflexivity|assumption].
Qed.







(** ** overlay_slice and draw_slice: further properties *)

Lemma greater_times_pos (c : field Q) (k t : Q) :
  0 < k -> arr.greater (arr.times c k) t = arr.greater c (t / k).
Proof.
  intros Hk. unfold arr.greater, arr.times. rewrite map_map.
  apply map_ext. intros row. rewrite map_map. apply map_ext. intros x.
  apply eq_true_iff_eq. rewrite !Qlt_bool_true.
  assert (Hne : ~ k == 0) by (intro E; rewrite E in Hk; discriminate Hk).
  split; intro Hlt.
  - apply Qlt_shift_div_r; assumption.
  - apply (Qmult_lt_r _ _ k Hk) in Hlt.
    setoid_replace (t / k * k) with t in Hlt by (field; exact Hne). exact Hlt.
Qed.

Lemma greater_times_neg (c : field Q) (k t : Q) :
  k < 0 -> arr.greater (arr.times c k) t = arr.less c (t / k).
Proof.
  intros Hk. unfold arr.greater, arr.less, arr.times. rewrite map_map.
  apply map_ext. intros row. rewrite map_map. apply map_ext. intros x.
  apply eq_true_iff_eq. rewrite !Qlt_bool_true.
  assert (Hne : ~ k == 0) by (intro E; rewrite E in Hk; discriminate Hk).
  assert (Hk' : 0 < - k) by (apply (Qopp_lt_compat k 0) in Hk; exact Hk).
  rewrite <- (Qmult_lt_r x (t / k) (- k) Hk').
  setoid_replace (t / k * - k) with (- t) by (field; exact Hne).
  setoid_replace (x * - k) with (- (x * k)) by ring.
  split; intro Hlt; lra.
Qed.

Section CompositorFurther.
Context `{ext : Externals}.

(** X13.  Without a colour volume, the colour-mask volume, the alpha
    volume and every option other than [interp_order] have no effect on
    the image [overlay_slice] returns. *)
Theorem overlay_slice_without_color (sl : Slice) (options options' : Options)
        (window : Q * Q) (img_base : Volume)
        (img_mask img_color_mask img_color_mask' img_alpha img_alpha' : option Volume) :
  interp_order options = interp_order options' ->
  overlay_slice sl options window img_base img_mask None img_color_mask img_alpha
  = overlay_slice sl options' window img_base img_mask None img_color_mask' img_alpha'.
Proof.
  intros Horder. unfold overlay_slice, sl_blend. rewrite Horder. reflexivity.
Qed.

(** X14.  The colour threshold is compared with the colour field after it
    has been multiplied by [color_scale]: with no colour-mask volume and a
    non-zero threshold t, the mask is [raw > t / color_scale] for a positive
    scale, and [raw < t / color_scale] for a negative one. *)
Theorem threshold_applies_to_scaled_color (sl : Slice) (options : Options)
        (c : field Q) (t : Q) :
  color_mask_thresh options = Some t -> ~ t == 0 ->
  ~ color_scale options == 0 ->
  sl_color_mask sl options None (arr.times c (color_scale options))
  = Ok (BoolArr (if np.Qlt_bool 0 (color_scale options)
                 then arr.greater c (t / color_scale options)
                 else arr.less c (t / color_scale options))).
Proof.
  intros Et Hnz Hk. unfold sl_color_mask. rewrite Et, (if_true_nonzero t Hnz).
  do 2 f_equal.
  destruct (np.Qlt_bool 0 (color_scale options)) eqn:E.
  - apply Qlt_bool_true in E. now apply greater_times_pos.
  - apply Qlt_bool_false in E. apply greater_times_neg.
    apply Qle_lt_or_eq in E as [E|E]; [exact E|contradiction].
Qed.

(** X15.  When [overlay_slice] raises, [draw_slice] raises the same
    exception and draws nothing. *)
Theorem draw_slice_overlay_error (sl : Slice) (opts : Options) (window : Q * Q)
        (img : Volume) (mask color_img color_mask alpha_img contour_img : option Volume)
        (levels : list Q) (colors : string) (ax : Axes) (e : exn) :
  overlay_slice sl opts window img mask color_img color_mask alpha_img = Raise e ->
  draw_slice sl opts window img mask color_img color_mask alpha_img
             contour_img levels colors ax
  = (Raise e, ax).
Proof.
  intros Hov. unfold draw_slice, dbind, lift. rewrite Hov. reflexivity.
Qed.

(** X16.  An error in the contour step of [draw_slice] comes after the
    image has been drawn: when sampling the contour image raises, or when
    [contour_levels] is empty ([IndexError]), the axes hold the image and
    the axis-off call. *)
Theorem draw_slice_contour_error (sl : Slice) (opts : Options) (window : Q * Q)
        (img : Volume) (mask color_img color_mask alpha_img : option Volume)
        (contour_img : Volume) (colors : string) (ax : Axes) (sliced : field rgb) :
  overlay_slice sl opts window img mask color_img color_mask alpha_img = Ok sliced ->
  (forall levels e,
      sample sl contour_img 1 = Raise e ->
      draw_slice sl opts window img mask color_img color_mask alpha_img
                 (Some contour_img) levels colors ax
      = (Raise e, ax ++ [Imshow sliced (extent sl); AxisOff]))
  /\ (forall f,
         sample sl contour_img 1 = Ok f ->
         draw_slice sl opts window img mask color_img color_mask alpha_img
                    (Some contour_img) [] colors ax
         = (Raise IndexError, ax ++ [Imshow sliced (extent sl); AxisOff])).
Proof.
  intros Hov. split.
  - intros levels e Hs. unfold draw_slice, dbind, lift, call. rewrite Hov, Hs.
    rewrite <- app_assoc. reflexivity.
  - intros f Hs. unfold draw_slice, dbind, lift, call. rewrite Hov, Hs.
    cbn [first_item]. rewrite <- app_assoc. reflexivity.
Qed.

(** X17.  Whenever [overlay_slice] succeeds, [draw_slice] keeps what the
    axes already held, draws the image and turns the axis off, and adds at
    most one further call, a contour call; without a contour image it adds
    none and returns normally, whatever the levels. *)
Theorem draw_slice_image_first (sl : Slice) (opts : Options) (window : Q * Q)
        (img : Volume) (mask color_img color_mask alpha_img contour_img : option Volume)
        (levels : list Q) (colors : string) (ax : Axes) (sliced : field rgb) :
  overlay_slice sl opts window img mask color_img color_mask alpha_img = Ok sliced ->
  exists r rest,
    draw_slice sl opts window img mask color_img color_mask alpha_img
               contour_img levels colors ax
    = (r, ax ++ Imshow sliced (extent sl) :: AxisOff :: rest) /\
    (rest = [] \/ exists f, rest = [Contour f levels (extent sl) colors] /\ r = Ok tt) /\
    (contour_img = None -> r = Ok tt /\ rest = []).
Proof.
  intros Hov. unfold draw_slice, dbind, lift, call, dret. rewrite Hov.
  rewrite <- !app_assoc. cbn [app].
  destruct contour_img as [ci|].
  - destruct (sample sl ci 1) as [f|e].
    + destruct levels as [|level levels]; cbn [first_item].
      * exists (Raise IndexError), [].
        split; [reflexivity|]. split; [now left|intro Hc; discriminate Hc].
      * destruct (arr.any (arr.less f level) && arr.any (arr.greater f level)).
        -- exists (Ok tt), [Contour f (level :: levels) (extent sl) colors].
           split; [rewrite <- app_assoc; reflexivity|].
           split; [right; now exists f|intro Hc; discriminate Hc].
        -- exists (Ok tt), [].
           split; [reflexivity|]. split; [now left|intro Hc; discriminate Hc].
    + exists (Raise e), [].
      split; [reflexivity|]. split; [now left|intro Hc; discriminate Hc].
  - exists (Ok tt), [].
    split; [reflexivity|]. split; [now left|intros _; split; reflexivity].
Qed.

End CompositorFurther.

(** ** Legend widgets *)

Lemma zip3_length {A B C : Type} (a : list A) (b : list B) (c : list C) :
  List.length (zip3 a b c)
  = Nat.min (List.length a) (Nat.min (List.length b) (List.length c)).
Proof.
  revert b c. induction a as [|x a IH]; intros [|y b] [|z c]; simpl; try reflexivity.
  now rewrite IH.
Qed.

Section LegendProperties.
Context `{ext : Externals} `{txt : PyText}.

Lemma draw_alines_horizontal (orient : string) (lines : list (Q * string * string)) :
  is_h orient = true ->
  forall ax, draw_alines orient lines ax = (Done tt, ax ++ map hline lines).
Proof.
  intros Hh. induction lines as [|[[ay ac] astyle] lines IH]; intros ax.
  - cbn [draw_alines lret map]. now rewrite app_nil_r.
  - cbn [draw_alines map hline]. unfold lbind at 1. rewrite Hh. unfold emit at 1.
    rewrite IH, <- app_assoc. reflexivity.
Qed.

Lemma draw_alines_vertical (orient : string) (lines : list (Q * string * string)) :
  is_h orient = false -> lines <> [] ->
  forall ax, draw_alines orient lines ax = (Failed (AttributeError "y"), ax).
Proof.
  intros Hh Hne ax. destruct lines as [|[[ay ac] astyle] lines]; [contradiction|].
  cbn [draw_alines]. unfold lbind at 1. rewrite Hh. reflexivity.
Qed.

Lemma alines_requested (alines : option (list Q)) (colors styles : list string)
      (orient : string) (ax : list legend_call) :
  match alines with
  | Some (a :: l) => draw_alines orient (zip3 (a :: l) colors styles)
  | _ => lret tt
  end ax
  = draw_alines orient (requested_lines alines colors styles) ax.
Proof.
  destruct alines as [[|a l]|]; reflexivity.
Qed.

Lemma frame_colors_calls (black_backg : bool) (ax : list legend_call) :
  exists calls,
    frame_colors black_backg ax = (Done tt, ax ++ calls) /\
    filter is_line calls = [].
Proof.
  destruct black_backg; unfold frame_colors, lbind, emit;
    rewrite <- !app_assoc; cbn [app]; eexists; split; reflexivity.
Qed.

Lemma alphabar_horizontal_run (cm_name : string) (clims : Q * Q) (clabel : string)
      (alims : Q * Q) (alabel : string)
      (alines : option (list Q)) (colors styles : list string)
      (cprecision aprecision : Z) (black_backg : bool) (orient : string)
      (ax : list legend_call) (color acmap : field rgb) (clo chi alo ahi : string) :
  is_h orient = true ->
  image.colorize (tile_rows (linspace (fst clims) (snd clims) steps) steps) cm_name clims
  = Ok color ->
  image.blend (ones_rgb steps) color (FloatArr (tile_cols (linspace 0 1 steps) steps))
  = Ok acmap ->
  format_num ("{:." ++ str_of_int cprecision ++ "f}")%string (fst clims) = Ok clo ->
  format_num ("{:." ++ str_of_int cprecision ++ "f}")%string (snd clims) = Ok chi ->
  format_num ("{:." ++ str_of_int aprecision ++ "f}")%string (fst alims) = Ok alo ->
  format_num ("{:." ++ str_of_int aprecision ++ "f}")%string (snd alims) = Ok ahi ->
  exists calls,
    alphabar cm_name clims clabel alims alabel alines colors styles
             cprecision aprecision black_backg orient ax
    = (Done tt, ax ++ calls) /\
    filter is_line calls = map hline (requested_lines alines colors styles).
Proof.
  intros Hh Hcol Hblend Hclo Hchi Halo Hahi.
  unfold alphabar. rewrite Hh. cbv beta iota zeta.
  unfold lbind at 1. unfold llift at 1. rewrite Hcol.
  unfold lbind at 1. unfold llift at 1. rewrite Hblend.
  unfold lbind at 1. unfold emit at 1.
  unfold lbind at 1. unfold llift at 1. rewrite Hclo.
  unfold lbind at 1. unfold llift at 1. rewrite Hchi.
  unfold lbind at 1. unfold llift at 1. rewrite Halo.
  unfold lbind at 1. unfold llift at 1. rewrite Hahi.
  unfold lbind at 1. unfold lbind at 1. unfold lbind at 1. unfold lbind at 1.
  unfold emit at 1 2 3 4.
  unfold lbind at 1. rewrite alines_requested, (draw_alines_horizontal _ _ Hh).
  match goal with
  | |- exists calls, frame_colors _ ?a = _ /\ _ =>
      destruct (frame_colors_calls black_backg a) as (post & Epost & Hpost); rewrite Epost
  end.
  rewrite <- !app_assoc. cbn [app].
  eexists. split; [reflexivity|].
  cbn [filter is_line]. rewrite filter_app, Hpost, app_nil_r.
  generalize (requested_lines alines colors styles). intros lines.
  induction lines as [|[[ay ac] astyle] lines IH]; [reflexivity|].
  cbn [map hline filter is_line]. now rewrite IH.
Qed.

(** X18.  In the horizontal layout, once colorizing, blending and label
    formatting succeed, [alphabar] returns normally and the lines it draws
    are the zip of [alines], [alines_colors] and [alines_styles], in order:
    as many as the shortest of the three, and none when [alines] is [None]
    or empty. *)
Theorem alphabar_lines (cm_name : string) (clims : Q * Q) (clabel : string)
        (alims : Q * Q) (alabel : string)
        (alines : option (list Q)) (colors styles : list string)
        (cprecision aprecision : Z) (black_backg : bool) (orient : string)
        (ax : list legend_call) (color acmap : field rgb) (clo chi alo ahi : string) :
  is_h orient = true ->
  image.colorize (tile_rows (linspace (fst clims) (snd clims) steps) steps) cm_name clims
  = Ok color ->
  image.blend (ones_rgb steps) color (FloatArr (tile_cols (linspace 0 1 steps) steps))
  = Ok acmap ->
  format_num ("{:." ++ str_of_int cprecision ++ "f}")%string (fst clims) = Ok clo ->
  format_num ("{:." ++ str_of_int cprecision ++ "f}")%string (snd clims) = Ok chi ->
  format_num ("{:." ++ str_of_int aprecision ++ "f}")%string (fst alims) = Ok alo ->
  format_num ("{:." ++ str_of_int aprecision ++ "f}")%string (snd alims) = Ok ahi ->
  exists calls,
    alphabar cm_name clims clabel alims alabel alines colors styles
             cprecision aprecision black_backg orient ax
    = (Done tt, ax ++ calls) /\
    filter is_line calls = map hline (requested_lines alines colors styles) /\
    List.length (requested_lines alines colors styles)
    = match alines with
      | Some l => Nat.min (List.length l)
                          (Nat.min (List.length colors) (List.length styles))
      | None => 0%nat
      end.
Proof.
  intros Hh Hcol Hblend Hclo Hchi Halo Hahi.
  destruct (alphabar_horizontal_run cm_name clims clabel alims alabel alines colors
              styles cprecision aprecision black_backg orient ax color acmap
              clo chi alo ahi Hh Hcol Hblend Hclo Hchi Halo Hahi) as (calls & E & Hl).
  exists calls. split; [exact E|]. split; [exact Hl|].
  destruct alines as [l|]; [apply zip3_length|reflexivity].
Qed.

(** X19.  With the default [alines_colors] and [alines_styles] (one entry
    each), a horizontal [alphabar] given one or more [alines] draws only the
    first of them. *)
Theorem alphabar_default_styles_one_line (cm_name : string) (clims : Q * Q)
        (clabel : string) (alims : Q * Q) (alabel : string)
        (a : Q) (more : list Q)
        (cprecision aprecision : Z) (black_backg : bool) (orient : string)
        (ax : list legend_call) (color acmap : field rgb) (clo chi alo ahi : string) :
  is_h orient = true ->
  image.colorize (tile_rows (linspace (fst clims) (snd clims) steps) steps) cm_name clims
  = Ok color ->
  image.blend (ones_rgb steps) color (FloatArr (tile_cols (linspace 0 1 steps) steps))
  = Ok acmap ->
  format_num ("{:." ++ str_of_int cprecision ++ "f}")%string (fst clims) = Ok clo ->
  format_num ("{:." ++ str_of_int cprecision ++ "f}")%string (snd clims) = Ok chi ->
  format_num ("{:." ++ str_of_int aprecision ++ "f}")%string (fst alims) = Ok alo ->
  format_num ("{:." ++ str_of_int aprecision ++ "f}")%string (snd alims) = Ok ahi ->
  exists calls,
    alphabar cm_name clims clabel alims alabel (Some (a :: more))
             default_alines_colors default_alines_styles
             cprecision aprecision black_backg orient ax
    = (Done tt, ax ++ calls) /\
    filter is_line calls = [HLine a (3 # 2) "solid" "k"].
Proof.
  intros Hh Hcol Hblend Hclo Hchi Halo Hahi.
  destruct (alphabar_horizontal_run cm_name clims clabel alims alabel (Some (a :: more))
              default_alines_colors default_alines_styles cprecision aprecision
              black_backg orient ax color acmap
              clo chi alo ahi Hh Hcol Hblend Hclo Hchi Halo Hahi) as (calls & E & Hl).
  exists calls. split; [exact E|]. rewrite Hl.
  destruct more; reflexivity.
Qed.

(** X20.  In the vertical layout (any [orient] other than ["h"]), once
    colorizing, blending and label formatting succeed, [alphabar] raises
    [AttributeError] as soon as one line is requested, after the image and
    the ticks have been drawn and before the frame is coloured; it returns
    normally only when no line is requested. *)
Theorem alphabar_vertical_lines (cm_name : string) (clims : Q * Q) (clabel : string)
        (alims : Q * Q) (alabel : string)
        (alines : option (list Q)) (colors styles : list string)
        (cprecision aprecision : Z) (black_backg : bool) (orient : string)
        (ax : list legend_call) (color acmap : field rgb) (clo chi alo ahi : string) :
  is_h orient = false ->
  image.colorize (tile_cols (linspace (fst clims) (snd clims) steps) steps) cm_name clims
  = Ok color ->
  image.blend (ones_rgb steps) color (FloatArr (tile_rows (linspace 0 1 steps) steps))
  = Ok acmap ->
  format_num ("{:." ++ str_of_int cprecision ++ "f}")%string (fst clims) = Ok clo ->
  format_num ("{:." ++ str_of_int cprecision ++ "f}")%string (snd clims) = Ok chi ->
  format_num ("{:." ++ str_of_int aprecision ++ "f}")%string (fst alims) = Ok alo ->
  format_num ("{:." ++ str_of_int aprecision ++ "f}")%string (snd alims) = Ok ahi ->
  let drawn :=
    [Show acmap (fst alims, snd alims, fst clims, snd clims);
     SetTicks XAxis [fst alims; (fst alims + snd alims) / 2; snd alims];
     SetTickLabels XAxis [alo; alabel; ahi] [];
     SetTicks YAxis [fst clims; (fst clims + snd clims) / 2; snd clims];
     SetTickLabels YAxis [clo; clabel; chi]
                   [("rotation", "vertical"); ("va", "center")]%string] in
  (requested_lines alines colors styles <> [] ->
   alphabar cm_name clims clabel alims alabel alines colors styles
            cprecision aprecision black_backg orient ax
   = (Failed (AttributeError "y"), ax ++ drawn))
  /\ (requested_lines alines colors styles = [] ->
      exists calls,
        alphabar cm_name clims clabel alims alabel alines colors styles
                 cprecision aprecision black_backg orient ax
        = (Done tt, ax ++ drawn ++ calls) /\
        filter is_line calls = []).
Proof.
  intros Hh Hcol Hblend Hclo Hchi Halo Hahi drawn.
  assert (Hrun : alphabar cm_name clims clabel alims alabel alines colors styles
                          cprecision aprecision black_backg orient ax
                 = lbind (draw_alines orient (requested_lines alines colors styles))
                         (fun _ => frame_colors black_backg) (ax ++ drawn)).
  { unfold alphabar. rewrite Hh. cbv beta iota zeta.
    unfold lbind at 1. unfold llift at 1. rewrite Hcol.
    unfold lbind at 1. unfold llift at 1. rewrite Hblend.
    unfold lbind at 1. unfold emit at 1.
    unfold lbind at 1. unfold llift at 1. rewrite Hclo.
    unfold lbind at 1. unfold llift at 1. rewrite Hchi.
    unfold lbind at 1. unfold llift at 1. rewrite Halo.
    unfold lbind at 1. unfold llift at 1. rewrite Hahi.
    unfold lbind at 1. unfold lbind at 1. unfold lbind at 1. unfold lbind at 1.
    unfold emit at 1 2 3 4.
    unfold lbind at 1. rewrite alines_requested.
    unfold lbind at 1. rewrite <- !app_assoc. reflexivity. }
  rewrite Hrun. split.
  - intros Hne. unfold lbind. now rewrite (draw_alines_vertical _ _ Hh Hne).
  - intros Hnone. rewrite Hnone. unfold lbind. cbn [draw_alines lret].
    destruct (frame_colors_calls black_backg (ax ++ drawn)) as (post & Epost & Hpost).
    exists post. rewrite Epost, <- app_assoc. split; [reflexivity|exact Hpost].
Qed.

Lemma draw_alines_orient (o1 o2 : string) (lines : list (Q * string * string)) :
  is_h o1 = is_h o2 ->
  forall ax, draw_alines o1 lines ax = draw_alines o2 lines ax.
Proof.
  intros Ho. induction lines as [|[[ay ac] astyle] lines IH]; intros ax; [reflexivity|].
  cbn [draw_alines]. unfold lbind. rewrite Ho.
  destruct (is_h o2); [|reflexivity]. unfold emit. apply IH.
Qed.

(** X21.  Both widgets treat every [orient] other than ["h"] alike: any
    two such values give the same calls and the same outcome. *)
Theorem legends_two_orientations (o1 o2 : string) :
  is_h o1 = false -> is_h o2 = false ->
  (forall cm_name clims clabel black_backg show_ticks tick_fmt ax,
      colorbar cm_name clims clabel black_backg show_ticks tick_fmt o1 ax
      = colorbar cm_name clims clabel black_backg show_ticks tick_fmt o2 ax)
  /\ (forall cm_name clims clabel alims alabel alines colors styles
             cprecision aprecision black_backg ax,
         alphabar cm_name clims clabel alims alabel alines colors styles
                  cprecision aprecision black_backg o1 ax
         = alphabar cm_name clims clabel alims alabel alines colors styles
                    cprecision aprecision black_backg o2 ax).
Proof.
  intros H1 H2. split.
  - intros. unfold colorbar. rewrite H1, H2. reflexivity.
  - intros. unfold alphabar. rewrite H1, H2. cbv beta iota zeta.
    unfold lbind.
    destruct (llift _ ax) as [[color|e] ax1]; [|reflexivity].
    destruct (llift _ ax1) as [[acmap|e] ax2]; [|reflexivity].
    destruct (emit _ ax2) as [[u|e] ax3]; [|reflexivity].
    destruct (llift _ ax3) as [[clo|e] ax4]; [|reflexivity].
    destruct (llift _ ax4) as [[chi|e] ax5]; [|reflexivity].
    destruct (llift _ ax5) as [[alo|e] ax6]; [|reflexivity].
    destruct (llift _ ax6) as [[ahi|e] ax7]; [|reflexivity].
    destruct (emit _ ax7) as [[u1|e] ax8]; [|reflexivity].
    destruct (emit _ ax8) as [[u2|e] ax9]; [|reflexivity].
    destruct (emit _ ax9) as [[u3|e] ax10]; [|reflexivity].
    destruct (emit _ ax10) as [[u4|e] ax11]; [|reflexivity].
    rewrite !alines_requested.
    rewrite (draw_alines_orient o1 o2) by congruence. reflexivity.
Qed.

(** X22.  When colorizing succeeds (and, with [show_ticks], formatting
    the two limits does), [colorbar] returns normally; along the bar's long
    axis (x when horizontal, y otherwise) it sets as many tick labels as
    ticks, with [clabel] at the midpoint of the limits, in the foreground
    colour (["w"] on a black background, else ["k"]). *)
Theorem colorbar_label_at_midpoint (cm_name : string) (clims : Q * Q) (clabel : string)
        (black_backg show_ticks : bool) (tick_fmt orient : string)
        (ax : list legend_call) (color : field rgb) (lo hi : string) :
  image.colorize (if is_h orient
                  then tile_rows (linspace (fst clims) (snd clims) steps) steps
                  else tile_cols (linspace (fst clims) (snd clims) steps) steps)
                 cm_name clims = Ok color ->
  (show_ticks = true ->
   format_num tick_fmt (fst clims) = Ok lo /\ format_num tick_fmt (snd clims) = Ok hi) ->
  exists calls ticks labels kw,
    colorbar cm_name clims clabel black_backg show_ticks tick_fmt orient ax
    = (Done tt, ax ++ calls) /\
    In (SetTicks (if is_h orient then XAxis else YAxis) ticks) calls /\
    In (SetTickLabels (if is_h orient then XAxis else YAxis) labels kw) calls /\
    List.length ticks = List.length labels /\
    In ((fst clims + snd clims) / 2, clabel) (combine ticks labels) /\
    In ("color", if black_backg then "w" else "k")%string kw.
Proof.
  intros Hcol Hfmt. unfold colorbar.
  destruct (is_h orient); cbv beta iota zeta;
    unfold lbind at 1; unfold llift at 1; rewrite Hcol;
    destruct show_ticks;
    try (destruct (Hfmt eq_refl) as (Hlo & Hhi));
    unfold lbind, llift, emit; try rewrite Hlo; try rewrite Hhi;
    rewrite <- !app_assoc; cbn [app];
    do 4 eexists; (split; [reflexivity|]);
    (split; [cbn [In]; eauto 12|]); (split; [cbn [In]; eauto 12|]);
    (split; [reflexivity|]);
    (split; [cbn [combine In]; auto 6|destruct black_backg; cbn [In]; auto 6]).
Qed.

(** X23.  Errors of [colorbar]: when colorizing raises, nothing is drawn;
    with [show_ticks], a formatting error for the lower limit comes after
    the image has been drawn and before any tick is set; without
    [show_ticks] the format string is never used, so the call returns
    normally whatever formatting would do. *)
Theorem colorbar_errors (cm_name : string) (clims : Q * Q) (clabel : string)
        (black_backg : bool) (tick_fmt orient : string) (ax : list legend_call) :
  let cdata := if is_h orient
               then tile_rows (linspace (fst clims) (snd clims) steps) steps
               else tile_cols (linspace (fst clims) (snd clims) steps) steps in
  let ext := if is_h orient then (fst clims, snd clims, 0, 1)
             else (0, 1, fst clims, snd clims) in
  (forall show_ticks e,
      image.colorize cdata cm_name clims = Raise e ->
      colorbar cm_name clims clabel black_backg show_ticks tick_fmt orient ax
      = (Failed (Builtin e), ax))
  /\ (forall color e,
         image.colorize cdata cm_name clims = Ok color ->
         format_num tick_fmt (fst clims) = Raise e ->
         colorbar cm_name clims clabel black_backg true tick_fmt orient ax
         = (Failed (Builtin e), ax ++ [Show color ext]))
  /\ (forall color,
         image.colorize cdata cm_name clims = Ok color ->
         exists calls,
           colorbar cm_name clims clabel black_backg false tick_fmt orient ax
           = (Done tt, ax ++ Show color ext :: calls)).
Proof.
  intros cdata ext0. subst cdata ext0. split; [|split].
  - intros show_ticks e Hcol. unfold colorbar.
    destruct (is_h orient); cbv beta iota zeta;
      unfold lbind at 1; unfold llift at 1; rewrite Hcol; reflexivity.
  - intros color e Hcol Hfmt. unfold colorbar.
    destruct (is_h orient); cbv beta iota zeta;
      unfold lbind at 1; unfold llift at 1; rewrite Hcol;
      unfold lbind, llift, emit; rewrite Hfmt; reflexivity.
  - intros color Hcol. unfold colorbar.
    destruct (is_h orient); cbv beta iota zeta;
      unfold lbind at 1; unfold llift at 1; rewrite Hcol;
      unfold lbind, llift, emit; rewrite <- !app_assoc; cbn [app];
      eexists; reflexivity.
Qed.

End LegendProperties.

(** ** Instances of the further properties *)

Lemma sample_point_zero_row_or_column_witness :
  sample_point Cases.collapsed [1; 2; 3] 1 = Raise LinAlgError.
Proof.
  apply (sample_point_zero_row_or_column Cases.collapsed [1; 2; 3] 1).
  right. right. left. repeat split; reflexivity.
Defined.

Lemma sample_point_bad_point_witness :
  sample_point Cases.cube [12; 20; 34; 1] 1 = Raise ValueError.
Proof.
  apply (sample_point_bad_point Cases.cube [12; 20; 34; 1] 1).
  - vm_compute. discriminate.
  - simpl. lia.
Defined.

Lemma sample_point_of_center_of_mass_witness :
  exists p,
    center_of_mass Cases.cube = Ok p /\
    (sample_point Cases.cube p 1 = Raise LinAlgError \/
     sample_point Cases.cube p 1 = Raise ValueError).
Proof.
  exists [12; 23; 34; 1]. split; [reflexivity|].
  apply (sample_point_of_center_of_mass Cases.cube [12; 23; 34; 1] 1). reflexivity.
Defined.

Lemma sample_point_singleton_axis_witness :
  sample_point Example.single_slice [0; 0; 0] 3 = Raise RuntimeError.
Proof.
  apply (sample_point_singleton_axis Example.single_slice 2 2 1 0 0 0 3).
  - reflexivity.
  - right. right. reflexivity.
  - vm_compute. discriminate.
Defined.




Lemma center_of_mass_in_volume_witness :
  exists i j k x y z w,
    (i < 2)%nat /\ (j < 2)%nat /\ (k < 2)%nat /\
    center_of_mass Cases.cube = Ok [x; y; z; w] /\
    Forall2 Qeq [x; y; z] (voxel_to_phys (affine Cases.cube) i j k).
Proof.
  apply (center_of_mass_in_volume Cases.cube 2 2 2); [reflexivity|lia|lia|lia].
Defined.

Lemma center_of_mass_empty_axis_witness :
  center_of_mass Cases.empty = Raise ValueError.
Proof.
  apply (center_of_mass_empty_axis Cases.empty 2 0 2).
  - reflexivity.
  - right. left. reflexivity.
Defined.

Lemma center_of_mass_all_zero_witness :
  exists x y z w,
    center_of_mass Cases.blank = Ok [x; y; z; w] /\
    Forall2 Qeq [x; y; z] [10; 20; 30].
Proof.
  apply (center_of_mass_all_zero Cases.blank 2 2 2); try lia.
  split; [reflexivity|].
  intros i j k Hi Hj Hk.
  destruct i as [|[|]]; destruct j as [|[|]]; destruct k as [|[|]];
    try lia; reflexivity.
Defined.

Lemma center_of_mass_single_negative_witness :
  exists x y z w,
    center_of_mass Cases.pit = Ok [x; y; z; w] /\
    Forall2 Qeq [x; y; z] [1; 0; 1].
Proof.
  destruct (center_of_mass_single_negative Cases.pit 2 2 2 0 1 0)
    as (_ & _ & _ & Hres); try lia; [|exact Hres].
  unfold single_negative_voxel. repeat split; try (simpl; lia).
  intros i j k Hi Hj Hk Hne.
  destruct i as [|[|]]; destruct j as [|[|]]; destruct k as [|[|]];
    try lia; reflexivity.
Defined.


Lemma overlay_slice_without_color_witness :
  overlay_slice (ext := Example.planes) 0%nat (Example.opts None) (0, 1) Example.base
                None None (Some Example.cmask) (Some Example.alpha)
  = overlay_slice (ext := Example.planes) 0%nat (Example.opts (Some 5)) (0, 1)
                  Example.base None None None None.
Proof.
  apply (overlay_slice_without_color (ext := Example.planes) 0%nat
           (Example.opts None) (Example.opts (Some 5))).
  reflexivity.
Defined.

Lemma threshold_applies_to_scaled_color_witness :
  sl_color_mask (ext := Example.planes) 0%nat
                (mk_Options 1 "gray" (-1, 1) 2 (Some 1) (1 # 2, 1)) None
                (arr.times [[1; -1]; [1 # 4; 3]] 2)
  = Ok (BoolArr (arr.greater [[1; -1]; [1 # 4; 3]] (1 / 2))).
Proof.
  apply (threshold_applies_to_scaled_color (ext := Example.planes) 0%nat
           (mk_Options 1 "gray" (-1, 1) 2 (Some 1) (1 # 2, 1))
           [[1; -1]; [1 # 4; 3]] 1).
  - reflexivity.
  - vm_compute. discriminate.
  - vm_compute. discriminate.
Defined.

Lemma draw_slice_overlay_error_witness :
  draw_slice (ext := Cases.broken) tt (Example.opts None) (0, 1) Example.base
             None None None None (Some Example.color)
             default_contour_levels default_contour_colors []
  = (Raise RuntimeError, []).
Proof.
  apply (draw_slice_overlay_error (ext := Cases.broken) tt (Example.opts None) (0, 1)
           Example.base None None None None (Some Example.color)
           default_contour_levels default_contour_colors [] RuntimeError).
  reflexivity.
Defined.

Lemma draw_slice_contour_error_witness :
  exists sliced,
    draw_slice (ext := Example.planes) 0%nat (Example.opts None) (0, 1) Example.base
               None None None None (Some Example.color) [] default_contour_colors []
    = (Raise IndexError, [Imshow sliced [0; 2; 0; 2]; AxisOff]).
Proof.
  edestruct (draw_slice_contour_error (ext := Example.planes) 0%nat (Example.opts None)
               (0, 1) Example.base None None None None Example.color
               default_contour_colors [])
    as (_ & Hempty); [reflexivity|].
  eexists. eapply Hempty. reflexivity.
Defined.

Lemma draw_slice_image_first_witness :
  exists sliced,
    draw_slice (ext := Example.planes) 0%nat (Example.opts None) (0, 1) Example.base
               None None None None None [] default_contour_colors []
    = (Ok tt, [Imshow sliced [0; 2; 0; 2]; AxisOff]).
Proof.
  edestruct (draw_slice_image_first (ext := Example.planes) 0%nat (Example.opts None)
               (0, 1) Example.base None None None None None []
               default_contour_colors [])
    as (r & rest & E & _ & Hnone); [reflexivity|].
  destruct (Hnone eq_refl) as (Hr & Hrest). subst r rest.
  eexists. exact E.
Defined.

Lemma alphabar_lines_witness :
  exists calls,
    alphabar (ext := Example.planes) (txt := Widgets.plain_text)
             "gray" (0, 1) "c" (0, 1) "a" (Some [1 # 2; 3 # 4; 1])
             ["k"; "r"]%string ["solid"; "dashed"]%string 1 0 true "h" []
    = (Done tt, calls) /\
    filter is_line calls
    = [HLine (1 # 2) (3 # 2) "solid" "k"; HLine (3 # 4) (3 # 2) "dashed" "r"].
Proof.
  edestruct (alphabar_lines (ext := Example.planes) (txt := Widgets.plain_text)
               "gray" (0, 1) "c" (0, 1) "a" (Some [1 # 2; 3 # 4; 1])
               ["k"; "r"]%string ["solid"; "dashed"]%string 1 0 true "h" [])
    as (calls & E & Hl & _);
    [reflexivity | reflexivity | reflexivity | reflexivity | reflexivity
    | reflexivity | reflexivity | ].
  exists calls. split; [exact E|exact Hl].
Defined.

Lemma alphabar_default_styles_one_line_witness :
  exists calls,
    alphabar (ext := Example.planes) (txt := Widgets.plain_text)
             "gray" (0, 1) "c" (0, 1) "a" (Some [1 # 2; 3 # 4; 1])
             default_alines_colors default_alines_styles 1 0 true "h" []
    = (Done tt, calls) /\
    filter is_line calls = [HLine (1 # 2) (3 # 2) "solid" "k"].
Proof.
  edestruct (alphabar_default_styles_one_line
               (ext := Example.planes) (txt := Widgets.plain_text)
               "gray" (0, 1) "c" (0, 1) "a" (1 # 2) [3 # 4; 1] 1 0 true "h" [])
    as (calls & E & Hl);
    [reflexivity | reflexivity | reflexivity | reflexivity | reflexivity
    | reflexivity | reflexivity | ].
  exists calls. split; [exact E|exact Hl].
Defined.

Lemma alphabar_vertical_lines_witness :
  exists drawn,
    alphabar (ext := Example.planes) (txt := Widgets.plain_text)
             "gray" (0, 1) "c" (0, 1) "a" (Some [1 # 2])
             default_alines_colors default_alines_styles 1 0 true "v" []
    = (Failed (AttributeError "y"), drawn) /\
    List.length drawn = 5%nat.
Proof.
  edestruct (alphabar_vertical_lines (ext := Example.planes) (txt := Widgets.plain_text)
               "gray" (0, 1) "c" (0, 1) "a" (Some [1 # 2])
               default_alines_colors default_alines_styles 1 0 true "v" [])
    as (Hfail & _);
    [reflexivity | reflexivity | reflexivity | reflexivity | reflexivity
    | reflexivity | reflexivity | ].
  eexists. split; [apply Hfail; discriminate|reflexivity].
Defined.

Lemma legends_two_orientations_witness :
  colorbar (ext := Example.planes) (txt := Widgets.plain_text)
           "gray" (0, 1) "c" true true "{:.0f}" "v" []
  = colorbar (ext := Example.planes) (txt := Widgets.plain_text)
             "gray" (0, 1) "c" true true "{:.0f}" "horizontal" [].
Proof.
  apply (proj1 (legends_two_orientations (ext := Example.planes)
                  (txt := Widgets.plain_text) "v" "horizontal" eq_refl eq_refl)).
Defined.

Lemma colorbar_label_at_midpoint_witness :
  exists calls ticks labels kw,
    colorbar (ext := Example.planes) (txt := Widgets.plain_text)
             "gray" (0, 1) "c" true true "{:.0f}" "h" []
    = (Done tt, calls) /\
    In (SetTicks XAxis ticks) calls /\
    In (SetTickLabels XAxis labels kw) calls /\
    List.length ticks = List.length labels /\
    In ((0 + 1) / 2, "c"%string) (combine ticks labels) /\
    In ("color", "w")%string kw.
Proof.
  edestruct (colorbar_label_at_midpoint (ext := Example.planes)
               (txt := Widgets.plain_text)
               "gray" (0, 1) "c" true true "{:.0f}" "h" [])
    as (calls & ticks & labels & kw & E & H1 & H2 & H3 & H4 & H5).
  - reflexivity.
  - intros _. split; reflexivity.
  - exists calls, ticks, labels, kw. repeat split; assumption.
Defined.

Lemma colorbar_errors_witness :
  (exists color,
      colorbar (ext := Example.planes) (txt := Widgets.no_text)
               "gray" (0, 1) "c" true true "{:.0f}" "h" []
      = (Failed (Builtin ValueError), [Show color (0, 1, 0, 1)]))
  /\ colorbar (ext := Example.planes) (txt := Widgets.no_text)
              "jet" (0, 1) "c" true true "{:.0f}" "h" []
     = (Failed (Builtin LookupError), []).
Proof.
  destruct (colorbar_errors (ext := Example.planes) (txt := Widgets.no_text)
              "gray" (0, 1) "c" true "{:.0f}" "h" []) as (_ & Hfmt & _).
  destruct (colorbar_errors (ext := Example.planes) (txt := Widgets.no_text)
              "jet" (0, 1) "c" true "{:.0f}" "h" []) as (Hcol & _ & _).
  split.
  - eexists. eapply Hfmt; reflexivity.
  - apply Hcol. reflexivity.
Defined.
